(** * The memory subsystem of the AI Dungeon Master (memory.py, app.py)

    A shallow embedding of [MemoryManager] and of the helpers around it,
    followed by the properties of the specification that concern them.

    Conventions of the embedding.
    - A Python [str] is a [string]; a character stands for the code point
      of the same number (0..255), and the string built-ins ([lower],
      [strip], [split], [in], [int]) are written out as Python defines
      them on those code points.
    - A JSON value read from disk is a [value].  The code inspects a value
      other than [None], a boolean, an integer or a string only through
      [bool()], [int()] and [str()]; such a value (a float, a list, an
      object) is carried as [VOther] with its three answers.
    - A Python dict with string keys is a [gmap string value].
    - The three files under data/ are the fields of [files]; a file holds
      the object that [_save_json] dumped into it.
    - A method of [MemoryManager] takes the manager and the files and
      returns the new ones; a method that can raise returns a [result]. *)

From Stdlib Require Import ZArith Ascii String DecimalString.
From stdpp Require Import gmap strings list sorting.

Local Open Scope Z_scope.

(** ** Python's string built-ins *)

Module Py.

Definition in_range (lo hi n : N) : bool := ((lo <=? n) && (n <=? hi))%N.

(** [c.lower()] for one character: A-Z, and the Latin-1 capitals
    U+00C0..U+00DE except the multiplication sign U+00D7. *)
Definition lower_char (c : ascii) : ascii :=
  let n := N_of_ascii c in
  if in_range 65 90 n || (in_range 192 222 n && negb (n =? 215)%N)
  then ascii_of_N (n + 32) else c.

(** [s.lower()] *)
Fixpoint lower (s : string) : string :=
  match s with
  | EmptyString => EmptyString
  | String c s' => String (lower_char c) (lower s')
  end.

(** [c.isspace()]: TAB..CR (9-13), FS..US and SPACE (28-32), NEL (133)
    and NBSP (160). *)
Definition isspace (c : ascii) : bool :=
  let n := N_of_ascii c in
  in_range 9 13 n || in_range 28 32 n || (n =? 133)%N || (n =? 160)%N.

Definition is_empty (s : string) : bool :=
  match s with EmptyString => true | String _ _ => false end.

(** Stripping from both ends the characters that [sp] accepts. *)
Fixpoint lstrip_with (sp : ascii -> bool) (s : string) : string :=
  match s with
  | EmptyString => EmptyString
  | String c s' => if sp c then lstrip_with sp s' else s
  end.

Fixpoint rstrip_with (sp : ascii -> bool) (s : string) : string :=
  match s with
  | EmptyString => EmptyString
  | String c s' =>
      let r := rstrip_with sp s' in
      if sp c && is_empty r then EmptyString else String c r
  end.

Definition strip_with (sp : ascii -> bool) (s : string) : string :=
  lstrip_with sp (rstrip_with sp s).

(** [s.strip()] *)
Definition strip (s : string) : string := strip_with isspace s.

(** [s.split()]: the maximal runs of non-space characters, in order. *)
Fixpoint split_from (s cur : string) : list string :=
  match s with
  | EmptyString => if is_empty cur then [] else [cur]
  | String c s' =>
      if isspace c
      then (if is_empty cur then split_from s' EmptyString
            else cur :: split_from s' EmptyString)
      else split_from s' (cur +:+ String c EmptyString)
  end.

Definition split (s : string) : list string := split_from s EmptyString.

(** [w in t] on strings: [w] occurs in [t] as a contiguous substring. *)
Fixpoint contains (w t : string) : bool :=
  String.prefix w t ||
  match t with
  | EmptyString => false
  | String _ t' => contains w t'
  end.

(** [sep.join(ls)] *)
Definition join (sep : string) (ls : list string) : string :=
  String.concat sep ls.

(** [s.split(":", 1)[1]]: what follows the first colon; [None] stands for
    the IndexError raised when [s] has no colon. *)
Fixpoint after_colon (s : string) : option string :=
  match s with
  | EmptyString => None
  | String c s' => if Ascii.eqb c ":" then Some s' else after_colon s'
  end.

(** [str(z)] for an integer. *)
Definition str_of_Z (z : Z) : string := NilZero.string_of_int (Z.to_int z).

Definition digit_val (c : ascii) : option Z :=
  let n := N_of_ascii c in
  if in_range 48 57 n then Some (Z.of_N n - 48) else None.

(** The digits of an integer literal, with single underscores allowed
    between digits.  [prev_us] says that the previous character was an
    underscore (or that no digit has been read yet). *)
Fixpoint parse_digits (s : string) (acc : Z) (prev_us : bool) : option Z :=
  match s with
  | EmptyString => if prev_us then None else Some acc
  | String c s' =>
      if Ascii.eqb c "_"
      then (if prev_us then None else parse_digits s' acc true)
      else match digit_val c with
           | Some d => parse_digits s' (10 * acc + d) false
           | None => None
           end
  end.

Fixpoint count_digits (s : string) : nat :=
  match s with
  | EmptyString => O
  | String c s' =>
      (if digit_val c is Some _ then 1 else 0)%nat + count_digits s'
  end.

(** The interpreter's default limit on the digits of a decimal string
    ([sys.get_int_max_str_digits()]). *)
Definition int_max_str_digits : nat := 4300.

Definition parse_unsigned (s : string) : option Z :=
  if (int_max_str_digits <? count_digits s)%nat then None
  else parse_digits s 0 true.

(** The white space that [int] skips around a literal: TAB..CR, SPACE, NEL
    and NBSP (not FS..US, which [strip] takes). *)
Definition int_space (c : ascii) : bool :=
  let n := N_of_ascii c in
  in_range 9 13 n || (n =? 32)%N || (n =? 133)%N || (n =? 160)%N.

(** [int(s)] for a string; [None] stands for ValueError. *)
Definition int_of_str (s : string) : option Z :=
  match strip_with int_space s with
  | String "+" r => parse_unsigned r
  | String "-" r => Z.opp <$> parse_unsigned r
  | t => parse_unsigned t
  end.

(** [l[start:]] *)
Definition slice_from {A} (start : Z) (l : list A) : list A :=
  let len := Z.of_nat (length l) in
  let i := if start <? 0 then Z.max (len + start) 0 else Z.min start len in
  drop (Z.to_nat i) l.

(** [l[:stop]] *)
Definition slice_to {A} (stop : Z) (l : list A) : list A :=
  let len := Z.of_nat (length l) in
  let j := if stop <? 0 then Z.max (len + stop) 0 else Z.min stop len in
  take (Z.to_nat j) l.

End Py.

(** ** JSON values and note records *)

Inductive value : Type :=
  | VNone
  | VBool (b : bool)
  | VInt (z : Z)
  | VStr (s : string)
  | VOther (truthy : bool) (as_int : option Z) (as_str : string).

#[global] Instance value_eq_dec : EqDecision value.
Proof. solve_decision. Defined.

(** [isinstance(v, int)]: [bool] is a subclass of [int]. *)
Definition isinstance_int (v : value) : bool :=
  match v with VBool _ | VInt _ => true | _ => false end.

Definition isinstance_str (v : value) : bool :=
  match v with VStr _ => true | _ => false end.

(** [bool(v)] *)
Definition truthy (v : value) : bool :=
  match v with
  | VNone => false
  | VBool b => b
  | VInt z => negb (z =? 0)
  | VStr s => negb (Py.is_empty s)
  | VOther t _ _ => t
  end.

(** [int(v)]; [None] stands for the TypeError, ValueError or
    OverflowError that [int] raises. *)
Definition py_int (v : value) : option Z :=
  match v with
  | VNone => None
  | VBool b => Some (if b then 1 else 0)
  | VInt z => Some z
  | VStr s => Py.int_of_str s
  | VOther _ i _ => i
  end.

(** [str(v)], also what an f-string puts for [{v}]. *)
Definition py_str (v : value) : string :=
  match v with
  | VNone => "None"
  | VBool b => if b then "True" else "False"
  | VInt z => Py.str_of_Z z
  | VStr s => s
  | VOther _ _ s => s
  end.

(** A long-term note as the code holds it: a dict. *)
Abbreviation record := (gmap string value).

(** [r.get(k)]: [None] when the key is missing. *)
Definition get (r : record) (k : string) : value :=
  default VNone (r !! k).

(** [r.get(k, d)] *)
Definition get_or (r : record) (k : string) (d : value) : value :=
  default d (r !! k).

(** ** Persistence *)

(** The files under data/.  A field is [None] while the file is missing
    (or does not parse), which is when [_load_json] gives its default. *)
Record files : Type := mkFiles {
  ltm_file : option (list record);
  key_file : option (gmap string Z);
  hints_file : option (list string)
}.

Definition no_files : files := mkFiles None None None.

Definition load_ltm (fs : files) : list record := default [] (ltm_file fs).
Definition load_keys (fs : files) : gmap string Z := default ∅ (key_file fs).
Definition load_hints (fs : files) : list string := default [] (hints_file fs).

(** [_save_json(LTM_FILE, recs)] *)
Definition save_ltm (recs : list record) (fs : files) : files :=
  mkFiles (Some recs) (key_file fs) (hints_file fs).

(** [_save_json(HINTS_FILE, hs)] *)
Definition save_hints (hs : list string) (fs : files) : files :=
  mkFiles (ltm_file fs) (key_file fs) (Some hs).

(** ** _normalize_records *)

(** The three steps of the loop body on one record; the boolean is the
    [changed] flag after the step. *)
Definition normalize_priority (r : record) (changed : bool) : record * bool :=
  if isinstance_int (get r "priority") then (r, changed)
  else
    let p := match py_int (get_or r "priority" (VInt 1)) with
             | Some z => z
             | None => 1
             end in
    (<["priority" := VInt p]> r, true).

Definition normalize_turn (r : record) (changed : bool) : record * bool :=
  if isinstance_int (get r "turn") then (r, changed)
  else
    let t := match py_int (get_or r "turn" (VInt 0)) with
             | Some z => z
             | None => 0
             end in
    (<["turn" := VInt t]> r, true).

Definition normalize_note (r : record) (changed : bool) : record * bool :=
  match get r "note" with
  | VNone => (r, changed)
  | n => if isinstance_str n then (r, changed)
         else (<["note" := VStr (py_str n)]> r, true)
  end.

Definition normalize_record (r : record) (changed : bool) : record * bool :=
  let '(r1, c1) := normalize_priority r changed in
  let '(r2, c2) := normalize_turn r1 c1 in
  normalize_note r2 c2.

(** [for r in recs: ...], threading [changed]. *)
Fixpoint normalize_loop (recs : list record) (changed : bool)
  : list record * bool :=
  match recs with
  | [] => ([], changed)
  | r :: rest =>
      let '(r', c) := normalize_record r changed in
      let '(rest', c') := normalize_loop rest c in
      (r' :: rest', c')
  end.

Definition _normalize_records (recs : list record) (fs : files)
  : list record * files :=
  let '(recs', changed) := normalize_loop recs false in
  (recs', if changed then save_ltm recs' fs else fs).

(** ** Exceptions *)

Inductive exn : Type := AttributeError | KeyError.

Inductive result (A : Type) : Type :=
  | Ok (a : A)
  | Raise (e : exn).
Arguments Ok {A} a.
Arguments Raise {A} e.

#[global] Instance result_bind : MBind result := fun A B f m =>
  match m with
  | Ok a => f a
  | Raise e => Raise e
  end.

(** [[f(x) for x in l]] where [f] can raise: the first exception wins. *)
Fixpoint mapM {A B} (f : A -> result B) (l : list A) : result (list B) :=
  match l with
  | [] => Ok []
  | x :: xs => y ← f x; ys ← mapM f xs; Ok (y :: ys)
  end.

(** [[x for x in l if p(x)]] where [p] can raise. *)
Fixpoint filterM {A} (p : A -> result bool) (l : list A) : result (list A) :=
  match l with
  | [] => Ok []
  | x :: xs =>
      b ← p x; ys ← filterM p xs; Ok (if (b : bool) then x :: ys else ys)
  end.

(** ** MemoryManager *)

Record turn : Type := mkTurn { user : string; dm : string }.

Record MemoryManager : Type := mkMM {
  short_window : Z;
  use_semantic_rag : bool;
  turns : list turn;
  long_memory : list record;
  keyword_bank : gmap string Z;
  hints : list string;
  corpus : list string  (* the texts held by the semantic index *)
}.

Definition set_turns (ts : list turn) (m : MemoryManager) : MemoryManager :=
  mkMM (short_window m) (use_semantic_rag m) ts (long_memory m)
       (keyword_bank m) (hints m) (corpus m).

Definition set_long_memory (recs : list record) (m : MemoryManager)
  : MemoryManager :=
  mkMM (short_window m) (use_semantic_rag m) (turns m) recs
       (keyword_bank m) (hints m) (corpus m).

Definition set_hints (hs : list string) (m : MemoryManager) : MemoryManager :=
  mkMM (short_window m) (use_semantic_rag m) (turns m) (long_memory m)
       (keyword_bank m) hs (corpus m).

Definition set_corpus (c : list string) (m : MemoryManager) : MemoryManager :=
  mkMM (short_window m) (use_semantic_rag m) (turns m) (long_memory m)
       (keyword_bank m) (hints m) c.

(** [_rag_add_text]: nothing for an empty text, otherwise the text joins
    the corpus (the embedder and the index exist whenever the method is
    called, which is under [if self.use_semantic_rag]). *)
Definition _rag_add_text (text : string) (m : MemoryManager) : MemoryManager :=
  if Py.is_empty text then m else set_corpus (corpus m ++ [text]) m.

(** The text that [_init_rag_index] hands to [_rag_add_text] for a
    record: [rec.get("note", "")], which after normalisation is a string
    or [None]; [None] is falsy and adds nothing, like the empty text. *)
Definition seed_text (r : record) : string :=
  match get_or r "note" (VStr "") with
  | VStr s => s
  | _ => ""
  end.

Definition _init_rag_index (m : MemoryManager) : MemoryManager :=
  fold_left (fun m r => _rag_add_text (seed_text r) m) (long_memory m)
            (set_corpus [] m).

(** [MemoryManager(short_window, use_semantic_rag)].  [rag_ok] is the
    module flag [_USE_RAG_OK]: whether the embedding libraries import. *)
Definition init (rag_ok : bool) (short_window : Z) (use_semantic_rag : bool)
    (fs : files) : MemoryManager * files :=
  let '(lm, fs') := _normalize_records (load_ltm fs) fs in
  let m := mkMM short_window (use_semantic_rag && rag_ok) [] lm
                (load_keys fs) (load_hints fs) [] in
  (if use_semantic_rag && rag_ok then _init_rag_index m else m, fs').

(** *** Short-term window *)

Definition turn_lines (t : turn) : list string :=
  ["Player: " +:+ user t; "DM: " +:+ dm t].

(** The list [lines] that [get_short_context] joins. *)
Definition short_context_lines (m : MemoryManager) : list string :=
  let tail := Py.slice_from (- short_window m) (turns m) in
  concat (map turn_lines tail).

Definition newline : string := String (ascii_of_N 10) EmptyString.

Definition get_short_context (m : MemoryManager) : string :=
  Py.join newline (short_context_lines m).

Definition add_turn (u d : string) (m : MemoryManager) : MemoryManager :=
  set_turns (turns m ++ [mkTurn u d]) m.

(** *** Consistency hints *)

Definition add_consistency_hint (hint : string) (m : MemoryManager) (fs : files)
  : MemoryManager * files :=
  if negb (Py.is_empty hint) && negb (bool_decide (hint ∈ hints m))
  then let hs := hints m ++ [hint] in (set_hints hs m, save_hints hs fs)
  else (m, fs).

Definition pop_consistency_hints (m : MemoryManager) (fs : files)
  : string * MemoryManager * files :=
  match hints m with
  | [] => ("", m, fs)
  | _ =>
      let popped := Py.slice_to 2 (hints m) in
      let rest := Py.slice_from 2 (hints m) in
      ("Consistency hints:" +:+ newline +:+
         Py.join newline (map (fun h => "- " +:+ h) popped),
       set_hints rest m, save_hints rest fs)
  end.

(** *** Priority scorer *)

Definition KEY_TAGS : list (string * list string) :=
  [ ("quest", ["quest"; "mission"; "task"; "contract"]);
    ("item", ["sword"; "key"; "map"; "feather"; "ring"; "amulet"; "potion";
              "lantern"; "gem"; "scroll"]);
    ("ally", ["joins you"; "agrees to help"; "companion"; "party member";
              "ally"]);
    ("lore", ["prophecy"; "legend"; "ancient"; "ritual"; "temple"; "kingdom";
              "order"]) ].

(** [any(w in t for w in words)] *)
Definition any_in (words : list string) (t : string) : bool :=
  existsb (fun w => Py.contains w t) words.

Definition _priority (text : string) : Z :=
  let t := Py.lower text in
  let score :=
    fold_left (fun score kw => if any_in kw.2 t then score + 2 else score)
              KEY_TAGS 1 in
  let score := if Py.contains "remember:" t then score + 3 else score in
  Z.min score 5.

(** *** Pinning *)

(** [["HIGH"]] and [[]] as values: a list is read by this code only
    through its truth value and its printed form. *)
Definition tags_high : value := VOther true None "['HIGH']".
Definition tags_none : value := VOther false None "[]".

Definition make_record (note : string) (tags : value) (priority turn : Z)
  : record :=
  <["note" := VStr note]> (<["tags" := tags]>
    (<["priority" := VInt priority]> (<["turn" := VInt turn]> ∅))).

Definition pin_note (note : string) (m : MemoryManager) (fs : files)
  : MemoryManager * files :=
  let rec := make_record note tags_high 5 (-1) in
  let m1 := set_long_memory (long_memory m ++ [rec]) m in
  let m2 := if use_semantic_rag m1 then _rag_add_text note m1 else m1 in
  (m2, save_ltm (long_memory m2) fs).

(** The [remember:] command of the turn loop (app.py).  [None]: the text
    is not a [remember:] command and the loop goes on to the model call. *)
Inductive feedback : Type :=
  | Success (msg : string)
  | Warning (msg : string).

Definition remember_command (text : string) (m : MemoryManager) (fs : files)
  : option (feedback * MemoryManager * files) :=
  if String.prefix "remember:" (Py.lower text) then
    rest ← Py.after_colon text;
    let note := Py.strip rest in
    if negb (Py.is_empty note)
    then let '(m', fs') := pin_note note m fs in
         Some (Success ("Pinned: " +:+ note), m', fs')
    else Some (Warning "Usage: remember: <note>", m, fs)
  else None.

(** *** Note extraction *)

(** [re.split(r"[.\n]", s)]: the pieces between the separators, empty
    pieces included. *)
Fixpoint split_on (sep : ascii -> bool) (s cur : string) : list string :=
  match s with
  | EmptyString => [cur]
  | String c s' =>
      if sep c then cur :: split_on sep s' EmptyString
      else split_on sep s' (cur +:+ String c EmptyString)
  end.

Definition is_sentence_end (c : ascii) : bool :=
  Ascii.eqb c "." || (N_of_ascii c =? 10)%N.

Definition ACTION_WORDS : list string :=
  ["find"; "give"; "take"; "enter"; "warn"; "agree"; "attack"; "discover";
   "feather"; "lantern"; "key"; "map"].

(** The loop that fills [kept], with its [break]. *)
Fixpoint keep_lines (lines kept : list string) : list string :=
  match lines with
  | [] => kept
  | ln :: rest =>
      let kept' := if any_in ACTION_WORDS (Py.lower ln)
                   then kept ++ [ln] else kept in
      if (2 <=? length kept')%nat then kept' else keep_lines rest kept'
  end.

Definition extract_key_events (dm_reply : string) (turn : Z)
    (m : MemoryManager) (fs : files) : MemoryManager * files :=
  let lines :=
    map Py.strip
        (filter (fun s => negb (Py.is_empty (Py.strip s)) = true)
                (split_on is_sentence_end dm_reply EmptyString)) in
  let kept := keep_lines lines [] in
  let chosen := match kept with [] => Py.slice_to 1 lines | _ => kept end in
  let m' :=
    fold_left
      (fun m ln =>
         let rec := make_record ln tags_none (_priority ln) turn in
         let m1 := set_long_memory (long_memory m ++ [rec]) m in
         if use_semantic_rag m1 then _rag_add_text ln m1 else m1)
      chosen m in
  (m', save_ltm (long_memory m') fs).

(** *** Lightweight recall *)

(** [to_int] of [recall_relevant] *)
Definition to_int (x : value) (default : Z) : Z :=
  match py_int x with
  | Some z => z
  | None => default
  end.

(** [(rec.get("note") or "")] at a place where a string method follows:
    a truthy value that is no string has no such method. *)
Definition note_or_empty (r : record) : result string :=
  let v := get r "note" in
  if truthy v
  then match v with
       | VStr s => Ok s
       | _ => Raise AttributeError
       end
  else Ok "".

(** [any(w and w in n for w in ws)] *)
Definition any_token_in (ws : list string) (n : string) : bool :=
  existsb (fun w => negb (Py.is_empty w) && Py.contains w n) ws.

(** The sort key [score(rec)] *)
Definition score (cue_l : string) (focus : list string) (rec : record)
  : result (Z * Z) :=
  let s := to_int (get_or rec "priority" (VInt 1)) 1 in
  n0 ← note_or_empty rec;
  let n := Py.lower n0 in
  let s := if any_token_in focus n then s + 1 else s in
  let s := if any_token_in (Py.split cue_l) n then s + 1 else s in
  Ok (s, to_int (get_or rec "turn" (VInt 0)) 0).

(** Python's order on pairs of integers: [a >= b]. *)
Definition key_ge (a b : Z * Z) : bool :=
  (b.1 <? a.1) || ((a.1 =? b.1) && (b.2 <=? a.2)).

(** [sorted(..., reverse=True)] on a list decorated with its keys: a stable
    sort into descending order.  An element goes in front of the first
    one whose key is not greater than its own. *)
Fixpoint insert_desc {A} (x : (Z * Z) * A) (l : list ((Z * Z) * A))
  : list ((Z * Z) * A) :=
  match l with
  | [] => [x]
  | y :: ys => if key_ge x.1 y.1 then x :: y :: ys else y :: insert_desc x ys
  end.

Definition sort_desc {A} (l : list ((Z * Z) * A)) : list ((Z * Z) * A) :=
  foldr insert_desc [] l.

(** [sorted(pool, key=f, reverse=True)] *)
Definition sorted_by_key_desc {A} (f : A -> result (Z * Z)) (pool : list A)
  : result (list A) :=
  keys ← mapM f pool;
  Ok (snd <$> sort_desc (zip keys pool)).

(** [r[k]] *)
Definition getitem (r : record) (k : string) : result value :=
  match r !! k with
  | Some v => Ok v
  | None => Raise KeyError
  end.

(** [(r.get("note") or "").strip()] as a condition *)
Definition has_note_text (r : record) : result bool :=
  s ← note_or_empty r; Ok (negb (Py.is_empty (Py.strip s))).

(** The list [pool] of the Lightweight branch. *)
Definition recall_pool (m : MemoryManager) : result (list record) :=
  filterM has_note_text (Py.slice_from (-200) (long_memory m)).

(** The list [ranked] of the Lightweight branch. *)
Definition recall_ranked (k : Z) (cue : string) (npc_focus : option (list string))
    (m : MemoryManager) : result (list record) :=
  let cue_l := Py.lower cue in
  let focus := map Py.lower (default [] npc_focus) in
  pool ← recall_pool m;
  sorted ← sorted_by_key_desc (score cue_l focus) pool;
  Ok (Py.slice_to k sorted).

Definition bullet (r : record) : result string :=
  v ← getitem r "note"; Ok ("- " +:+ py_str v).

(** [recall_relevant(k, cue, npc_focus)].  [hits] is what the embedding
    search [_rag_search(cue, top_k=k)] answers; it is read in Semantic
    mode only. *)
Definition recall_relevant (hits : list string) (k : Z) (cue : string)
    (npc_focus : option (list string)) (m : MemoryManager) : result string :=
  bullets ←
    (if use_semantic_rag m
     then Ok (map (fun t => "- " +:+ t) hits)
     else ranked ← recall_ranked k cue npc_focus m; mapM bullet ranked);
  match bullets with
  | [] => Ok ""
  | _ => Ok ("Relevant notes:" +:+ newline +:+ Py.join newline bullets)
  end.

(** *** Recap *)

Definition recap (m : MemoryManager) : string :=
  match Py.slice_from (-12) (long_memory m) with
  | [] => "No long-term notes yet."
  | tail =>
      let lines :=
        map (fun r => "- " +:+ py_str (get_or r "note" (VStr "")))
            (filter (fun r => truthy (get r "note") = true) tail) in
      "Recent world notes:" +:+ newline +:+ Py.join newline lines
  end.

(** *** Compaction *)

(** [(rec.get("note") or "").strip().lower()] *)
Definition note_key (r : record) : result string :=
  s ← note_or_empty r; Ok (Py.lower (Py.strip s)).

(** The loop of [compact_long_memory] over the reversed store, with its
    [break]; it answers the list [compact]. *)
Fixpoint compact_loop (recs : list record) (seen : gset string)
    (compact : list record) (max_notes : Z) : result (list record) :=
  match recs with
  | [] => Ok compact
  | rec :: rest =>
      note ← note_key rec;
      let keep := negb (Py.is_empty note) && negb (bool_decide (note ∈ seen)) in
      let seen' := if keep then {[note]} ∪ seen else seen in
      let compact' := if keep then compact ++ [rec] else compact in
      if Z.of_nat (length compact') >=? max_notes then Ok compact'
      else compact_loop rest seen' compact' max_notes
  end.

Definition compact_long_memory (max_notes : Z) (m : MemoryManager) (fs : files)
  : result (MemoryManager * files) :=
  match long_memory m with
  | [] => Ok (m, fs)
  | _ =>
      compact ← compact_loop (reverse (long_memory m)) ∅ [] max_notes;
      let lm := reverse compact in
      Ok (set_long_memory lm m, save_ltm lm fs)
  end.

(** ** The helpers of the turn loop (app.py) *)

(** More of Python's string built-ins, on the same code points. *)
Module PyMore.

(** [c.isalpha()]: the letters of Latin-1. *)
Definition isalpha_char (c : ascii) : bool :=
  let n := N_of_ascii c in
  Py.in_range 65 90 n || Py.in_range 97 122 n || (n =? 170)%N ||
  (n =? 181)%N || (n =? 186)%N || Py.in_range 192 214 n ||
  Py.in_range 216 246 n || Py.in_range 248 255 n.

(** [w.isalpha()]: at least one character, and letters only. *)
Fixpoint all_alpha (w : string) : bool :=
  match w with
  | EmptyString => true
  | String c w' => isalpha_char c && all_alpha w'
  end.

Definition isalpha (w : string) : bool := negb (Py.is_empty w) && all_alpha w.

(** [c.isupper()] for one character: the capitals of Latin-1. *)
Definition isupper_char (c : ascii) : bool :=
  let n := N_of_ascii c in
  Py.in_range 65 90 n || Py.in_range 192 214 n || Py.in_range 216 222 n.

(** [w[0].isupper()] for a word that is not empty. *)
Definition first_isupper (w : string) : bool :=
  match w with
  | EmptyString => false
  | String c _ => isupper_char c
  end.

(** The line boundaries of [splitlines]: LF, VT, FF, CR, FS, GS, RS, NEL. *)
Definition is_linebreak (c : ascii) : bool :=
  let n := N_of_ascii c in
  Py.in_range 10 13 n || Py.in_range 28 30 n || (n =? 133)%N.

(** [s.splitlines()]: CR LF counts for one boundary, and a boundary at the
    very end opens no further line. *)
Fixpoint splitlines_from (s cur : string) : list string :=
  match s with
  | EmptyString => if Py.is_empty cur then [] else [cur]
  | String c s' =>
      if (N_of_ascii c =? 13)%N
      then match s' with
           | String c2 s'' =>
               if (N_of_ascii c2 =? 10)%N
               then cur :: splitlines_from s'' EmptyString
               else cur :: splitlines_from s' EmptyString
           | EmptyString => [cur]
           end
      else if is_linebreak c then cur :: splitlines_from s' EmptyString
      else splitlines_from s' (cur +:+ String c EmptyString)
  end.

Definition splitlines (s : string) : list string :=
  splitlines_from s EmptyString.

(** [len(s)] *)
Definition len (s : string) : Z := Z.of_nat (String.length s).

End PyMore.

(** The characters of [w.strip(",.;:!?")]. *)
Definition is_punct (c : ascii) : bool :=
  existsb (Ascii.eqb c) [","; "."; ";"; ":"; "!"; "?"]%char.

(** The loop of [guess_npc_focus] over the tokens: it collects the
    lowercase forms of the capitalised alphabetic words, each once. *)
Fixpoint focus_loop (toks caps : list string) : list string :=
  match toks with
  | [] => caps
  | w :: rest =>
      if negb (Py.is_empty w) && PyMore.first_isupper w && PyMore.isalpha w
      then let lw := Py.lower w in
           if bool_decide (lw ∈ caps) then focus_loop rest caps
           else focus_loop rest (caps ++ [lw])
      else focus_loop rest caps
  end.

Definition guess_npc_focus (text : string) : list string :=
  let toks := map (Py.strip_with is_punct) (Py.split text) in
  Py.slice_to 2 (focus_loop toks []).

(** The loop of [trim_bullets] with its [break]: the bullets that fit,
    given the size reached so far. *)
Fixpoint trim_loop (bullets : list string) (size max_chars : Z)
  : list string :=
  match bullets with
  | [] => []
  | b :: rest =>
      if max_chars <? size + PyMore.len b + 1 then []
      else b :: trim_loop rest (size + PyMore.len b + 1) max_chars
  end.

(** The lines of a context that [trim_bullets] takes for bullets. *)
Definition bullet_lines (lines : list string) : list string :=
  filter (fun l => String.prefix "-" (Py.strip l) = true)
         (Py.slice_from 1 lines).

Definition trim_bullets (long_ctx : string) (max_chars : Z) : string :=
  if Py.is_empty long_ctx || (PyMore.len long_ctx <=? max_chars)
  then long_ctx
  else
    let lines := PyMore.splitlines long_ctx in
    let header := match lines with [] => "" | l :: _ => l end in
    let bullets := bullet_lines lines in
    let kept := trim_loop bullets (PyMore.len header) max_chars in
    Py.join newline ([header] ++ kept).

(** ** Predicates of the specification *)

(** The note of a record is text, or is [None] or absent. *)
Definition note_ok (r : record) : Prop :=
  get r "note" = VNone ∨ isinstance_str (get r "note") = true.

(** What normalisation establishes for one record. *)
Definition record_ok (r : record) : Prop :=
  isinstance_int (get r "priority") = true ∧
  isinstance_int (get r "turn") = true ∧
  note_ok r.

(** The reading of the specification: the note is always a string. *)
Definition record_all_typed (r : record) : Prop :=
  isinstance_int (get r "priority") = true ∧
  isinstance_int (get r "turn") = true ∧
  isinstance_str (get r "note") = true.

(** The record [{"note": None, "priority": 3, "turn": 7}]. *)
Definition rec_null_note : record :=
  <["note" := VNone]> (<["priority" := VInt 3]> (<["turn" := VInt 7]> ∅)).

(** The priority score in the words of the specification: the keyword
    sets of its glossary, 2 for each set with a match, 3 for the literal
    [remember:], 1 to start with and 5 at most. *)
Definition quest_words : list string :=
  ["quest"; "mission"; "task"; "contract"].
Definition item_words : list string :=
  ["sword"; "key"; "map"; "feather"; "ring"; "amulet"; "potion"; "lantern";
   "gem"; "scroll"].
Definition ally_words : list string :=
  ["joins you"; "agrees to help"; "companion"; "party member"; "ally"].
Definition lore_words : list string :=
  ["prophecy"; "legend"; "ancient"; "ritual"; "temple"; "kingdom"; "order"].

Definition b2z (b : bool) : Z := if b then 1 else 0.

Definition priority_spec (text : string) : Z :=
  let t := Py.lower text in
  Z.min 5 (1 + 2 * b2z (any_in quest_words t) + 2 * b2z (any_in item_words t)
             + 2 * b2z (any_in ally_words t) + 2 * b2z (any_in lore_words t)
             + 3 * b2z (Py.contains "remember:" t)).

(** A manager that has just been built over no files. *)
Definition fresh (short_window : Z) : MemoryManager :=
  (init false short_window false no_files).1.

(** Operations on the hint queue, and a run of them. *)
Inductive hint_op : Type :=
  | AddHint (h : string)
  | DrainHints.

Definition hint_step (st : MemoryManager * files) (op : hint_op)
  : MemoryManager * files :=
  match op with
  | AddHint h => add_consistency_hint h st.1 st.2
  | DrainHints =>
      let '(_, m, fs) := pop_consistency_hints st.1 st.2 in (m, fs)
  end.

Definition hint_run (ops : list hint_op) (st : MemoryManager * files)
  : MemoryManager * files :=
  fold_left hint_step ops st.

(** The note text of a record whose note is a string, [None] or absent. *)
Definition note_text (r : record) : string :=
  match get r "note" with
  | VStr s => s
  | _ => ""
  end.

(** The key under which compaction compares notes: trimmed, lowercased. *)
Definition dedup_key (r : record) : string :=
  Py.lower (Py.strip (note_text r)).

(** The note is empty or made of white space only. *)
Definition blank (r : record) : Prop := Py.strip (note_text r) = "".

(** A store with the one pinned note of the specification's scenario. *)
Definition one_note_store : MemoryManager :=
  (pin_note "The lantern is cursed" (fresh 4) no_files).1.

(** A store with two notes that are blank: an empty one and spaces. *)
Definition blank_store : MemoryManager :=
  (pin_note "   " (pin_note "" (fresh 4) no_files).1 no_files).1.

(** The sort key of Lightweight recall as a plain function, for a record
    whose note is text: the priority (coerced, 1 by default), one more
    when a non-empty focus token occurs in the lowercased note, one more
    when a token of the cue does; then the turn (coerced, 0 by default). *)
Definition rank_score (cue : string) (focus : list string) (r : record) : Z :=
  to_int (get_or r "priority" (VInt 1)) 1
  + b2z (any_token_in (map Py.lower focus) (Py.lower (note_text r)))
  + b2z (any_token_in (Py.split (Py.lower cue)) (Py.lower (note_text r))).

Definition rank_turn (r : record) : Z := to_int (get_or r "turn" (VInt 0)) 0.

Definition rank_key (cue : string) (focus : list string) (r : record) : Z * Z :=
  (rank_score cue focus r, rank_turn r).

(** The same in the words of the claim, where every focus token counts,
    the empty one too, and the pool holds the notes with a text that is
    not empty. *)
Definition claimed_score (cue : string) (focus : list string) (r : record) : Z :=
  to_int (get_or r "priority" (VInt 1)) 1
  + b2z (existsb (fun w => Py.contains (Py.lower w) (Py.lower (note_text r)))
                 focus)
  + b2z (existsb (fun w => Py.contains w (Py.lower (note_text r)))
                 (Py.split (Py.lower cue))).

Definition claimed_key (cue : string) (focus : list string) (r : record)
  : Z * Z :=
  (claimed_score cue focus r, rank_turn r).

Definition claimed_pool (m : MemoryManager) : list record :=
  filter (fun r => note_text r ≠ "") (Py.slice_from (-200) (long_memory m)).

(** The pool of Lightweight recall: of the last 200 records, those with a
    note that is not blank. *)
Definition pool_of (m : MemoryManager) : list record :=
  filter (fun r => ¬ blank r) (Py.slice_from (-200) (long_memory m)).

(** The answer of [recall_relevant] for a ranked list. *)
Definition render_notes (ranked : list record) : string :=
  match ranked with
  | [] => ""
  | _ => "Relevant notes:" +:+ newline +:+
         Py.join newline (map (fun r => "- " +:+ note_text r) ranked)
  end.

(** A store whose one note is three spaces. *)
Definition spaces_store : MemoryManager :=
  (pin_note "   " (fresh 4) no_files).1.

(** Two notes as the extractor files them, Alice's at turn 2 after Bob's
    at turn 1, both of priority 1. *)
Definition rec_bob : record := make_record "Bob sleeps" tags_none 1 1.
Definition rec_alice : record := make_record "Alice waits" tags_none 1 2.
Definition alice_bob_store : MemoryManager :=
  (extract_key_events "Alice waits" 2
     (extract_key_events "Bob sleeps" 1 (fresh 4) no_files).1 no_files).1.

(** The order of a list decorated with its keys: by key, greatest first. *)
Definition key_order {A} (x y : (Z * Z) * A) : Prop := key_ge x.1 y.1 = true.

(** The managers that the turn loop can reach: one that the constructor
    built, then any public method applied to it. *)
Inductive reachable : MemoryManager → files → Prop :=
  | reach_init rag_ok w rag fs :
      reachable (init rag_ok w rag fs).1 (init rag_ok w rag fs).2
  | reach_add_turn u d m fs :
      reachable m fs → reachable (add_turn u d m) fs
  | reach_add_hint h m fs :
      reachable m fs →
      reachable (add_consistency_hint h m fs).1 (add_consistency_hint h m fs).2
  | reach_pop_hints m fs :
      reachable m fs →
      reachable (pop_consistency_hints m fs).1.2 (pop_consistency_hints m fs).2
  | reach_pin note m fs :
      reachable m fs → reachable (pin_note note m fs).1 (pin_note note m fs).2
  | reach_extract reply turn m fs :
      reachable m fs →
      reachable (extract_key_events reply turn m fs).1
                (extract_key_events reply turn m fs).2
  | reach_compact max_notes m fs m' fs' :
      reachable m fs →
      compact_long_memory max_notes m fs = Ok (m', fs') →
      reachable m' fs'.

(** Three pinned notes, the first and the last the same up to case and
    surrounding spaces. *)
Definition three_note_store : MemoryManager :=
  (pin_note " the KEY "
     (pin_note "a map" (pin_note "The key" (fresh 4) no_files).1 no_files).1
     no_files).1.

(** The sentences that [extract_key_events] works on: the pieces of the
    reply between full stops and newlines, trimmed, the blank ones left
    out. *)
Definition reply_lines (dm_reply : string) : list string :=
  map Py.strip
      (filter (fun s => negb (Py.is_empty (Py.strip s)) = true)
              (split_on is_sentence_end dm_reply EmptyString)).

(** A sentence with one of the action words. *)
Definition has_action (ln : string) : Prop :=
  any_in ACTION_WORDS (Py.lower ln) = true.

(** The record that the extractor files for a sentence. *)
Definition extracted (turn : Z) (ln : string) : record :=
  make_record ln tags_none (_priority ln) turn.

(** The sentences of a reply that the extractor files. *)
Definition filed_lines (dm_reply : string) : list string :=
  match filter has_action (reply_lines dm_reply) with
  | [] => take 1 (reply_lines dm_reply)
  | hits => take 2 hits
  end.

(** What holds of every manager the turn loop can reach, with its files:
    the records are in normal form, the two files mirror the store and the
    hint queue, and the corpus of the semantic index is empty in
    Lightweight mode and holds the text of every note in Semantic mode. *)
Definition manager_inv (m : MemoryManager) (fs : files) : Prop :=
  Forall record_ok (long_memory m) ∧
  load_ltm fs = long_memory m ∧
  load_hints fs = hints m ∧
  (use_semantic_rag m = false → corpus m = []) ∧
  (use_semantic_rag m = true →
   ∀ r, r ∈ long_memory m → note_text r ≠ "" → note_text r ∈ corpus m).

(** The bullets of [recap]: one for each of the last 12 records whose note
    is truthy. *)
Definition recap_bullets (m : MemoryManager) : list string :=
  (fun r => "- " +:+ py_str (get_or r "note" (VStr ""))) <$>
    filter (fun r => truthy (get r "note") = true)
           (drop (length (long_memory m) - 12) (long_memory m)).

(** A word that passes the test of [guess_npc_focus]: not empty, a capital
    first, letters only. *)
Definition capitalised (w : string) : Prop :=
  w ≠ "" ∧ PyMore.first_isupper w = true ∧ PyMore.isalpha w = true.

(** The first line of a context, as [trim_bullets] reads it: [lines[0]],
    or the empty string when there is no line. *)
Definition header_line (long_ctx : string) : string :=
  match PyMore.splitlines long_ctx with [] => "" | l :: _ => l end.

(** What a run of kept bullets adds to the running size of [trim_bullets]:
    each bullet and its line break. *)
Fixpoint lines_size (ls : list string) : Z :=
  match ls with
  | [] => 0
  | b :: rest => PyMore.len b + 1 + lines_size rest
  end.

(** A context of a header, three bullets and a line that is no bullet,
    34 characters long. *)
Definition three_bullets : string :=
  Py.join newline ["Notes:"; "- a"; "not a bullet"; "- bb"; "- ccc"].

(** ** Normalisation: proofs *)

Section Normalize.

Implicit Types (r : record) (recs : list record) (c : bool).

Lemma get_insert_eq r k v : get (<[k := v]> r) k = v.
Proof. unfold get. by rewrite lookup_insert_eq. Qed.

Lemma get_insert_ne r k k' v : k ≠ k' → get (<[k := v]> r) k' = get r k'.
Proof. intros Hne. unfold get. by rewrite lookup_insert_ne. Qed.

Lemma normalize_priority_int r c :
  isinstance_int (get (normalize_priority r c).1 "priority") = true.
Proof.
  unfold normalize_priority.
  destruct (isinstance_int (get r "priority")) eqn:E; simpl; [done |].
  by rewrite get_insert_eq.
Qed.

Lemma normalize_priority_other r c k :
  k ≠ "priority" → get (normalize_priority r c).1 k = get r k.
Proof.
  intros Hk. unfold normalize_priority.
  destruct (isinstance_int (get r "priority")); simpl; [done |].
  by rewrite get_insert_ne.
Qed.

Lemma normalize_turn_int r c :
  isinstance_int (get (normalize_turn r c).1 "turn") = true.
Proof.
  unfold normalize_turn.
  destruct (isinstance_int (get r "turn")) eqn:E; simpl; [done |].
  by rewrite get_insert_eq.
Qed.

Lemma normalize_turn_other r c k :
  k ≠ "turn" → get (normalize_turn r c).1 k = get r k.
Proof.
  intros Hk. unfold normalize_turn.
  destruct (isinstance_int (get r "turn")); simpl; [done |].
  by rewrite get_insert_ne.
Qed.

Lemma normalize_note_ok r c : note_ok (normalize_note r c).1.
Proof.
  unfold normalize_note, note_ok.
  destruct (get r "note") eqn:E; simpl; rewrite ?E, ?get_insert_eq; auto.
Qed.

Lemma normalize_note_other r c k :
  k ≠ "note" → get (normalize_note r c).1 k = get r k.
Proof.
  intros Hk. unfold normalize_note.
  destruct (get r "note"); simpl; try done; by rewrite get_insert_ne.
Qed.

Lemma normalize_record_unfold r c :
  normalize_record r c =
  normalize_note (normalize_turn (normalize_priority r c).1
                                 (normalize_priority r c).2).1
                 (normalize_turn (normalize_priority r c).1
                                 (normalize_priority r c).2).2.
Proof.
  unfold normalize_record.
  destruct (normalize_priority r c) as [r1 c1]; simpl.
  by destruct (normalize_turn r1 c1) as [r2 c2].
Qed.

Lemma normalize_record_ok r c : record_ok (normalize_record r c).1.
Proof.
  rewrite normalize_record_unfold. repeat split.
  - rewrite normalize_note_other, normalize_turn_other by done.
    apply normalize_priority_int.
  - rewrite normalize_note_other by done. apply normalize_turn_int.
  - apply normalize_note_ok.
Qed.

(** A record that is already in normal form is left alone, and the flag
    with it. *)
Lemma normalize_record_fixed r c : record_ok r → normalize_record r c = (r, c).
Proof.
  intros (Hp & Ht & Hn). unfold normalize_record, normalize_priority.
  rewrite Hp. unfold normalize_turn. rewrite Ht. unfold normalize_note.
  destruct Hn as [-> | Hn]; [done |].
  destruct (get r "note"); try done.
Qed.

Lemma normalize_loop_fst_length recs c :
  length (normalize_loop recs c).1 = length recs.
Proof.
  revert c. induction recs as [| r rest IH]; intros c; simpl; [done |].
  destruct (normalize_record r c) as [r' c1].
  specialize (IH c1). destruct (normalize_loop rest c1) as [rest' c2].
  simpl in *. by rewrite IH.
Qed.

(** The loop works record by record: the output at a position is the
    normal form of the input at that position. *)
Lemma normalize_loop_lookup recs c i r :
  recs !! i = Some r →
  ∃ c0, (normalize_loop recs c).1 !! i = Some (normalize_record r c0).1.
Proof.
  revert c i. induction recs as [| r0 rest IH]; intros c i Hi; [done |].
  simpl. destruct (normalize_record r0 c) as [r' c1] eqn:E0.
  destruct (normalize_loop rest c1) as [rest' c2] eqn:E1.
  destruct i as [| i]; simpl in *.
  - injection Hi as <-. exists c. by rewrite E0.
  - destruct (IH c1 i Hi) as [c0 H0]. exists c0. by rewrite E1 in H0.
Qed.

Lemma normalize_loop_ok recs c : Forall record_ok (normalize_loop recs c).1.
Proof.
  revert c. induction recs as [| r rest IH]; intros c; simpl; [constructor |].
  pose proof (normalize_record_ok r c) as Hr.
  destruct (normalize_record r c) as [r' c1].
  specialize (IH c1). destruct (normalize_loop rest c1) as [rest' c2].
  by constructor.
Qed.

Lemma normalize_loop_fixed recs c :
  Forall record_ok recs → normalize_loop recs c = (recs, c).
Proof.
  intros H. revert c. induction H as [| r rest Hr _ IH]; intros c; [done |].
  simpl. rewrite (normalize_record_fixed r c Hr). by rewrite IH.
Qed.

Lemma _normalize_records_fst recs fs :
  (_normalize_records recs fs).1 = (normalize_loop recs false).1.
Proof.
  unfold _normalize_records. by destruct (normalize_loop recs false).
Qed.

End Normalize.

Section NormalizeClaims.

Implicit Types (r : record) (recs : list record) (c : bool).

Lemma normalize_record_priority r c :
  get (normalize_record r c).1 "priority" =
  if isinstance_int (get r "priority") then get r "priority"
  else VInt (to_int (get_or r "priority" (VInt 1)) 1).
Proof.
  rewrite normalize_record_unfold.
  rewrite normalize_note_other, normalize_turn_other by done.
  unfold normalize_priority, to_int.
  destruct (isinstance_int (get r "priority")); simpl; [done |].
  by rewrite get_insert_eq.
Qed.

Lemma normalize_priority_lookup r c k :
  k ≠ "priority" → (normalize_priority r c).1 !! k = r !! k.
Proof.
  intros Hk. unfold normalize_priority.
  destruct (isinstance_int (get r "priority")); simpl; [done |].
  by rewrite lookup_insert_ne.
Qed.

Lemma normalize_record_turn r c :
  get (normalize_record r c).1 "turn" =
  if isinstance_int (get r "turn") then get r "turn"
  else VInt (to_int (get_or r "turn" (VInt 0)) 0).
Proof.
  rewrite normalize_record_unfold.
  rewrite normalize_note_other by done.
  set (r1 := (normalize_priority r c).1).
  set (c1 := (normalize_priority r c).2).
  assert (r1 !! "turn" = r !! "turn") as H1
    by (by apply normalize_priority_lookup).
  unfold normalize_turn, to_int, get_or, get. rewrite H1.
  destruct (isinstance_int (default VNone (r !! "turn"))); simpl.
  - by rewrite H1.
  - by rewrite lookup_insert_eq.
Qed.

Lemma normalize_record_note r c :
  get (normalize_record r c).1 "note" =
  match get r "note" with
  | VNone => VNone
  | n => VStr (py_str n)
  end.
Proof.
  rewrite normalize_record_unfold.
  unfold normalize_note.
  rewrite normalize_turn_other, normalize_priority_other by done.
  destruct (get r "note") eqn:E; simpl;
    rewrite ?get_insert_eq, ?normalize_turn_other, ?normalize_priority_other;
    done.
Qed.

(** A missing note stays missing: normalisation adds no ["note"] key. *)
Lemma normalize_record_note_absent r c :
  r !! "note" = None → (normalize_record r c).1 !! "note" = None.
Proof.
  intros Hn. rewrite normalize_record_unfold.
  assert (∀ r0 c0, r0 !! "note" = None →
                   (normalize_priority r0 c0).1 !! "note" = None) as Hp.
  { intros r0 c0 H0. unfold normalize_priority.
    destruct (isinstance_int _); simpl; [done |]. by rewrite lookup_insert_ne. }
  assert (∀ r0 c0, r0 !! "note" = None →
                   (normalize_turn r0 c0).1 !! "note" = None) as Ht.
  { intros r0 c0 H0. unfold normalize_turn.
    destruct (isinstance_int _); simpl; [done |]. by rewrite lookup_insert_ne. }
  set (r2 := (normalize_turn _ _).1).
  assert (r2 !! "note" = None) as H2 by (apply Ht, Hp, Hn).
  unfold normalize_note, get. rewrite H2. simpl. done.
Qed.

End NormalizeClaims.

(** C3, the claim as stated fails: a record whose note is [None] comes out
    of [_normalize_records] with its note still [None], which is no string
    (the code converts a note only when it [is not None]). *)
Lemma normalize_keeps_null_note :
  ¬ Forall record_all_typed (_normalize_records [rec_null_note] no_files).1.
Proof.
  intros H. apply Forall_cons_1 in H as [(_ & _ & Hn) _].
  vm_compute in Hn. discriminate.
Qed.

(** C3, as amended: after [_normalize_records] every record's priority and
    turn are integers (Python ints, the booleans among them), a value that
    was no integer being replaced by its [int()] coercion, or by 1 for the
    priority and 0 for the turn when the key is missing or the coercion
    fails; the note is a string when it was present and not [None] (its
    [str()] form when it was no string), and stays [None] or absent
    otherwise. *)
Theorem normalize_records_typed (recs : list record) (fs : files) :
  let out := (_normalize_records recs fs).1 in
  length out = length recs ∧
  Forall record_ok out ∧
  ∀ i r, recs !! i = Some r →
    ∃ r', out !! i = Some r' ∧
      get r' "priority" =
        (if isinstance_int (get r "priority") then get r "priority"
         else VInt (to_int (get_or r "priority" (VInt 1)) 1)) ∧
      get r' "turn" =
        (if isinstance_int (get r "turn") then get r "turn"
         else VInt (to_int (get_or r "turn" (VInt 0)) 0)) ∧
      get r' "note" =
        (match get r "note" with
         | VNone => VNone
         | n => VStr (py_str n)
         end) ∧
      (r !! "note" = None → r' !! "note" = None).
Proof.
  simpl. rewrite _normalize_records_fst. split; [| split].
  - apply normalize_loop_fst_length.
  - apply normalize_loop_ok.
  - intros i r Hi.
    destruct (normalize_loop_lookup recs false i r Hi) as [c0 H0].
    exists (normalize_record r c0).1. split; [done |].
    split; [apply normalize_record_priority |].
    split; [apply normalize_record_turn |].
    split; [apply normalize_record_note |].
    apply normalize_record_note_absent.
Qed.

(** C9: normalisation is idempotent.  Applied to its own output (and to the
    files it left), [_normalize_records] returns that output and those files
    again, and its loop ends with [changed] false, so nothing is saved. *)
Theorem normalize_idempotent (recs : list record) (fs : files) :
  _normalize_records (_normalize_records recs fs).1
                     (_normalize_records recs fs).2
  = _normalize_records recs fs ∧
  (normalize_loop (_normalize_records recs fs).1 false).2 = false.
Proof.
  pose proof (normalize_loop_ok recs false) as Hok.
  rewrite <- _normalize_records_fst with (fs := fs) in Hok.
  destruct (_normalize_records recs fs) as [out fs1] eqn:E. simpl in *.
  unfold _normalize_records at 1.
  rewrite (normalize_loop_fixed out false Hok). done.
Qed.

(** ** The priority scorer *)

(** C4: the score is 1, plus 2 for each of the four topical categories with
    a keyword occurring in the lowercased text, plus 3 when the lowercased
    text contains [remember:], capped at 5; it lies between 1 and 5. *)
Theorem priority_score (text : string) :
  _priority text = priority_spec text ∧ 1 ≤ _priority text ≤ 5.
Proof.
  unfold _priority, priority_spec, KEY_TAGS.
  cbn [fold_left snd].
  change (any_in ["quest"; "mission"; "task"; "contract"])
    with (any_in quest_words).
  fold item_words ally_words lore_words.
  destruct (any_in quest_words _), (any_in item_words _),
    (any_in ally_words _), (any_in lore_words _),
    (Py.contains "remember:" _); vm_compute; intuition discriminate.
Qed.

(** ** The short-term window *)

Section ShortWindow.

Context {A : Type}.
Implicit Types (l : list A).

Lemma slice_from_0 l : Py.slice_from 0 l = l.
Proof.
  unfold Py.slice_from. simpl.
  replace (Z.min 0 (Z.of_nat (length l))) with 0 by lia. done.
Qed.

(** For a positive [W], [l[-W:]] is the last [min (len l) W] elements. *)
Lemma slice_from_neg l (W : Z) :
  1 ≤ W → Py.slice_from (- W) l = drop (length l - Z.to_nat W) l.
Proof.
  intros HW. unfold Py.slice_from.
  destruct (Z.ltb_spec (- W) 0) as [_ | ?]; [| lia].
  f_equal. lia.
Qed.

Lemma slice_from_neg_length l (W : Z) :
  1 ≤ W →
  Z.of_nat (length (Py.slice_from (- W) l)) = Z.min (Z.of_nat (length l)) W.
Proof.
  intros HW. rewrite slice_from_neg by done. rewrite length_drop. lia.
Qed.

End ShortWindow.

Lemma length_concat_turn_lines (ts : list turn) :
  length (concat (map turn_lines ts)) = (2 * length ts)%nat.
Proof. induction ts as [| t ts IH]; simpl; [done | lia]. Qed.

(** With a window of at least one turn, the context is made of the last
    [min N W] turns, oldest first, two lines a turn. *)
Lemma short_context_window (m : MemoryManager) :
  1 ≤ short_window m →
  ∃ tail older,
    turns m = older ++ tail ∧
    Z.of_nat (length tail) = Z.min (Z.of_nat (length (turns m))) (short_window m) ∧
    short_context_lines m = concat (map turn_lines tail) ∧
    get_short_context m = Py.join newline (concat (map turn_lines tail)).
Proof.
  intros HW. unfold get_short_context, short_context_lines.
  exists (Py.slice_from (- short_window m) (turns m)),
         (take (length (turns m) - Z.to_nat (short_window m)) (turns m)).
  split; [| split; [| done]].
  - rewrite slice_from_neg by done. by rewrite take_drop.
  - by apply slice_from_neg_length.
Qed.

Lemma short_context_no_turns (m : MemoryManager) :
  turns m = [] → get_short_context m = "".
Proof.
  intros H. unfold get_short_context, short_context_lines, Py.slice_from.
  rewrite H. simpl. by rewrite drop_nil.
Qed.

(** C2 at a window of size zero: the history has one turn, [min(1, 0)] is 0,
    and still the context renders that turn, because [turns[-0:]] is the
    whole list. *)
Theorem short_context_zero_window :
  let m := add_turn "look" "You see a door." (fresh 0) in
  Z.min (Z.of_nat (length (turns m))) (short_window m) = 0 ∧
  short_context_lines m = ["Player: look"; "DM: You see a door."] ∧
  get_short_context m =
    "Player: look" +:+ newline +:+ "DM: You see a door.".
Proof. vm_compute. done. Qed.

(** ** The hint queue *)

Section Hints.

Implicit Types (h : string) (m : MemoryManager) (fs : files).

Lemma is_empty_false h : h ≠ "" → Py.is_empty h = false.
Proof. by destruct h. Qed.

Lemma is_empty_true h : Py.is_empty h = true ↔ h = "".
Proof. by destruct h. Qed.

Lemma add_hint_new h m fs :
  h ≠ "" → h ∉ hints m →
  add_consistency_hint h m fs =
    (set_hints (hints m ++ [h]) m, save_hints (hints m ++ [h]) fs).
Proof.
  intros Hne Hnew. unfold add_consistency_hint.
  rewrite is_empty_false by done. by rewrite bool_decide_eq_false_2.
Qed.

Lemma add_hint_hints h m fs :
  hints (add_consistency_hint h m fs).1 =
  if decide (h ≠ "" ∧ h ∉ hints m) then hints m ++ [h] else hints m.
Proof.
  unfold add_consistency_hint.
  destruct (decide (h ≠ "" ∧ h ∉ hints m)) as [[Hne Hnew] | Hno].
  - rewrite is_empty_false by done. by rewrite bool_decide_eq_false_2.
  - destruct (Py.is_empty h) eqn:He; simpl; [done |].
    destruct (bool_decide (h ∈ hints m)) eqn:Hd; simpl; [done |].
    exfalso. apply Hno. split.
    + intros ->. discriminate.
    + by apply bool_decide_eq_false in Hd.
Qed.

Lemma slice_to_2 {A} (l : list A) : Py.slice_to 2 l = take 2 l.
Proof.
  unfold Py.slice_to. simpl.
  destruct l as [| a [| b l]]; simpl; try done.
  replace (Z.to_nat _) with 2%nat by lia. done.
Qed.

Lemma slice_from_2 {A} (l : list A) : Py.slice_from 2 l = drop 2 l.
Proof.
  unfold Py.slice_from. simpl.
  destruct l as [| a [| b l]]; simpl; try done.
  replace (Z.to_nat _) with 2%nat by lia. done.
Qed.

Lemma pop_hints_empty m fs :
  hints m = [] → pop_consistency_hints m fs = ("", m, fs).
Proof. intros H. unfold pop_consistency_hints. by rewrite H. Qed.

Lemma pop_hints_nonempty m fs :
  hints m ≠ [] →
  pop_consistency_hints m fs =
    ("Consistency hints:" +:+ newline +:+
       Py.join newline (map (fun h => "- " +:+ h) (take 2 (hints m))),
     set_hints (drop 2 (hints m)) m, save_hints (drop 2 (hints m)) fs).
Proof.
  intros H. unfold pop_consistency_hints.
  rewrite slice_to_2, slice_from_2. by destruct (hints m).
Qed.

Lemma pop_hints_hints m fs :
  hints (pop_consistency_hints m fs).1.2 = drop 2 (hints m).
Proof.
  destruct (hints m) as [| a l] eqn:E.
  - by rewrite pop_hints_empty.
  - rewrite pop_hints_nonempty by (by rewrite E). simpl. by rewrite E.
Qed.

Local Ltac not_in_list :=
  rewrite ?not_elem_of_cons; repeat split;
  first [congruence | apply not_elem_of_nil].

Lemma add_three_hints (A B C : string) m fs :
  hints m = [] →
  A ≠ "" → B ≠ "" → C ≠ "" → A ≠ B → A ≠ C → B ≠ C →
  hint_run [AddHint A; AddHint B; AddHint C] (m, fs) =
    (set_hints [A; B; C] m, save_hints [A; B; C] fs).
Proof.
  intros Hm HA HB HC HAB HAC HBC. unfold hint_run. simpl.
  rewrite (add_hint_new A m fs); [| done | rewrite Hm; apply not_elem_of_nil].
  rewrite Hm. simpl.
  rewrite (add_hint_new B); [| done | simpl; not_in_list]. simpl.
  rewrite (add_hint_new C); [| done | simpl; not_in_list]. simpl.
  done.
Qed.

Lemma hint_step_NoDup op m fs :
  NoDup (hints m) → NoDup (hints (hint_step (m, fs) op).1).
Proof.
  intros Hnd. destruct op as [h |]; simpl.
  - rewrite add_hint_hints. case_decide as Hd; [| done].
    apply NoDup_app. split; [done |]. split; [| apply NoDup_singleton].
    intros x Hx Hx'. apply list_elem_of_singleton in Hx'. subst.
    by destruct Hd.
  - pose proof (pop_hints_hints m fs) as Hp.
    destruct (pop_consistency_hints m fs) as [[out m'] fs']. simpl in *.
    rewrite Hp. eapply sublist_NoDup; [done | apply sublist_drop].
Qed.

Lemma hint_run_NoDup ops m fs :
  NoDup (hints m) → NoDup (hints (hint_run ops (m, fs)).1).
Proof.
  revert m fs. induction ops as [| op ops IH]; intros m fs Hnd; [done |].
  simpl. pose proof (hint_step_NoDup op m fs Hnd) as Hs.
  destruct (hint_step (m, fs) op) as [m' fs']. by apply IH.
Qed.

End Hints.

(** C7: the hint queue never holds the same string twice.  Whatever adds
    and drains are run from the empty queue, the queue has no duplicate;
    and [add_consistency_hint] appends its hint exactly when the hint is a
    non-empty string that the queue does not hold yet. *)
Theorem hints_never_duplicate :
  (∀ (ops : list hint_op) (m : MemoryManager) (fs : files),
      NoDup (hints (hint_run ops (set_hints [] m, fs)).1)) ∧
  (∀ (h : string) (m : MemoryManager) (fs : files),
      hints (add_consistency_hint h m fs).1 =
      if decide (h ≠ "" ∧ h ∉ hints m) then hints m ++ [h] else hints m).
Proof.
  split.
  - intros ops m fs. apply hint_run_NoDup. simpl. constructor.
  - apply add_hint_hints.
Qed.

(** C6: the queue is first in, first out, and a drain takes two.  From an
    empty queue, after three distinct non-empty hints A, B, C are added in
    that order, the first drain returns the header and the bullets of A and
    B in that order and leaves (and saves) the queue [C]; the second
    returns the bullet of C alone and leaves the queue empty; the third
    returns the empty string and changes nothing. *)
Theorem hints_fifo (A B C : string) (m : MemoryManager) (fs : files) :
  hints m = [] →
  A ≠ "" → B ≠ "" → C ≠ "" → A ≠ B → A ≠ C → B ≠ C →
  let st := hint_run [AddHint A; AddHint B; AddHint C] (m, fs) in
  let r1 := pop_consistency_hints st.1 st.2 in
  let r2 := pop_consistency_hints r1.1.2 r1.2 in
  let r3 := pop_consistency_hints r2.1.2 r2.2 in
  hints st.1 = [A; B; C] ∧
  r1.1.1 = "Consistency hints:" +:+ newline +:+
           "- " +:+ A +:+ newline +:+ "- " +:+ B ∧
  hints r1.1.2 = [C] ∧ hints_file r1.2 = Some [C] ∧
  r2.1.1 = "Consistency hints:" +:+ newline +:+ "- " +:+ C ∧
  hints r2.1.2 = [] ∧ hints_file r2.2 = Some [] ∧
  r3 = ("", r2.1.2, r2.2).
Proof.
  intros Hm HA HB HC HAB HAC HBC.
  rewrite add_three_hints by done. cbv zeta. simpl fst. simpl snd.
  rewrite !slice_from_2. simpl.
  rewrite pop_hints_empty by done. done.
Qed.

(** The run of [hints_fifo] on the hints a, b, c. *)
Lemma hints_fifo_witness :
  hints (fresh 4) = [] ∧
  let st := hint_run [AddHint "a"; AddHint "b"; AddHint "c"]
                     (fresh 4, no_files) in
  let r1 := pop_consistency_hints st.1 st.2 in
  let r2 := pop_consistency_hints r1.1.2 r1.2 in
  let r3 := pop_consistency_hints r2.1.2 r2.2 in
  hints st.1 = ["a"; "b"; "c"] ∧
  r1.1.1 = "Consistency hints:" +:+ newline +:+
           "- " +:+ "a" +:+ newline +:+ "- " +:+ "b" ∧
  hints r1.1.2 = ["c"] ∧ hints_file r1.2 = Some ["c"] ∧
  r2.1.1 = "Consistency hints:" +:+ newline +:+ "- " +:+ "c" ∧
  hints r2.1.2 = [] ∧ hints_file r2.2 = Some [] ∧
  r3 = ("", r2.1.2, r2.2).
Proof.
  split; [reflexivity |].
  apply (hints_fifo "a" "b" "c" (fresh 4) no_files);
    first [reflexivity | discriminate].
Defined.

(** ** Pinning a note *)

Section Pinning.

Implicit Types (m : MemoryManager) (fs : files) (s text note : string).

Lemma pin_note_long_memory note m fs :
  long_memory (pin_note note m fs).1 =
  long_memory m ++ [make_record note tags_high 5 (-1)].
Proof.
  unfold pin_note. simpl.
  destruct (use_semantic_rag m); [| done].
  unfold _rag_add_text. by destruct (Py.is_empty note).
Qed.

Lemma pin_note_file note m fs :
  ltm_file (pin_note note m fs).2 =
  Some (long_memory m ++ [make_record note tags_high 5 (-1)]).
Proof.
  rewrite <- (pin_note_long_memory note m fs). unfold pin_note. done.
Qed.

(** Lowering turns no character into a colon. *)
Lemma lower_char_colon (c : ascii) :
  Py.lower_char c = ":"%char → c = ":"%char.
Proof.
  destruct c as [[] [] [] [] [] [] [] []]; vm_compute; congruence.
Qed.

(** A text whose lowercase form starts with a word that has a colon has a
    colon itself, so that [split(":", 1)[1]] exists. *)
Lemma after_colon_prefix (p s : string) :
  String.prefix p (Py.lower s) = true →
  (∃ q1 q2, p = q1 +:+ String ":" q2) →
  is_Some (Py.after_colon s).
Proof.
  intros Hp (q1 & q2 & ->). revert s Hp.
  induction q1 as [| a q1 IH]; intros s Hp.
  - change ("" +:+ String ":" q2) with (String ":" q2) in Hp.
    destruct s as [| c s]; cbn [String.prefix Py.lower] in Hp; [done |].
    revert Hp.
    destruct (ascii_dec ":" (Py.lower_char c)) as [Hc | ?]; [| done].
    intros Hp. symmetry in Hc. apply lower_char_colon in Hc as ->.
    simpl. by eexists.
  - change (String a q1 +:+ String ":" q2)
      with (String a (q1 +:+ String ":" q2)) in Hp.
    destruct s as [| c s]; cbn [String.prefix Py.lower] in Hp; [done |].
    revert Hp.
    destruct (ascii_dec a (Py.lower_char c)) as [Hc | ?]; [| done].
    intros Hp. cbn [Py.after_colon].
    destruct (Ascii.eqb c ":"); [by eexists |]. by apply IH.
Qed.

Lemma remember_has_colon text :
  String.prefix "remember:" (Py.lower text) = true →
  is_Some (Py.after_colon text).
Proof.
  intros H. eapply after_colon_prefix; [exact H |].
  by exists "remember", "".
Qed.

End Pinning.

(** C1, the claim as stated fails: [pin_note] does not look at its text.
    Given the empty note it appends a record to a store that was empty
    and writes the long-term file, which did not exist. *)
Lemma pin_note_blank_appends :
  Py.strip "" = "" ∧
  long_memory (fresh 5) = [] ∧
  ltm_file no_files = None ∧
  long_memory (pin_note "" (fresh 5) no_files).1
    = [make_record "" tags_high 5 (-1)] ∧
  ltm_file (pin_note "" (fresh 5) no_files).2
    = Some [make_record "" tags_high 5 (-1)].
Proof. repeat split; vm_compute; reflexivity. Qed.

(** C1, as amended: the silent no-op is the caller's.  For a text that is a
    [remember:] command, the handler of the turn loop takes what follows
    the first colon and trims it; when nothing is left it shows the usage
    warning and leaves manager and files as they were, without a call of
    [pin_note]; otherwise it pins the trimmed note.  [pin_note] itself has
    no check: for every note it appends the record with that note, the tag
    HIGH, priority 5 and turn -1, and writes the new store to the
    long-term file. *)
Theorem remember_blank_is_noop (text : string) (m : MemoryManager) (fs : files) :
  String.prefix "remember:" (Py.lower text) = true →
  (∃ rest, Py.after_colon text = Some rest ∧
     remember_command text m fs =
       if Py.is_empty (Py.strip rest)
       then Some (Warning "Usage: remember: <note>", m, fs)
       else Some (Success ("Pinned: " +:+ Py.strip rest),
                  (pin_note (Py.strip rest) m fs).1,
                  (pin_note (Py.strip rest) m fs).2)) ∧
  (∀ note,
     long_memory (pin_note note m fs).1
       = long_memory m ++ [make_record note tags_high 5 (-1)] ∧
     ltm_file (pin_note note m fs).2
       = Some (long_memory m ++ [make_record note tags_high 5 (-1)])).
Proof.
  intros Hp. split.
  - destruct (remember_has_colon text Hp) as [rest Hrest].
    exists rest. split; [done |].
    unfold remember_command. rewrite Hp, Hrest. simpl.
    destruct (Py.is_empty (Py.strip rest)); simpl; [done |].
    by destruct (pin_note (Py.strip rest) m fs).
  - intros note. split; [apply pin_note_long_memory | apply pin_note_file].
Qed.

(** The command [Remember:] followed by spaces only, on a fresh manager. *)
Lemma remember_blank_is_noop_witness :
  String.prefix "remember:" (Py.lower "Remember:   ") = true ∧
  Py.strip "   " = "" ∧
  remember_command "Remember:   " (fresh 5) no_files
    = Some (Warning "Usage: remember: <note>", fresh 5, no_files).
Proof.
  split; [reflexivity |]. split; [reflexivity |].
  destruct (remember_blank_is_noop "Remember:   " (fresh 5) no_files)
    as [(rest & Hrest & Hcmd) _]; [reflexivity |].
  injection Hrest as <-. exact Hcmd.
Defined.

(** ** Compaction *)

Section Compaction.

Implicit Types (r : record) (recs compact added : list record)
  (seen : gset string) (m : MemoryManager) (fs : files).

Lemma note_or_empty_ok r : note_ok r → note_or_empty r = Ok (note_text r).
Proof.
  unfold note_ok, note_or_empty, note_text.
  intros [-> | H]; [done |].
  destruct (get r "note") as [| | | s |]; try done.
  simpl. by destruct s.
Qed.

Lemma note_key_ok r : note_ok r → note_key r = Ok (dedup_key r).
Proof. intros H. unfold note_key. by rewrite note_or_empty_ok. Qed.

Lemma has_note_text_ok r :
  note_ok r →
  has_note_text r = Ok (negb (Py.is_empty (Py.strip (note_text r)))).
Proof. intros H. unfold has_note_text. by rewrite note_or_empty_ok. Qed.

Lemma lower_is_empty (s : string) : Py.is_empty (Py.lower s) = Py.is_empty s.
Proof. by destruct s. Qed.

Lemma dedup_key_blank r : dedup_key r = "" ↔ blank r.
Proof.
  unfold dedup_key, blank. rewrite <- !is_empty_true.
  by rewrite lower_is_empty.
Qed.

Lemma sublist_reverse {A} (l1 l2 : list A) :
  l1 `sublist_of` l2 → reverse l1 `sublist_of` reverse l2.
Proof.
  induction 1 as [| x l1 l2 _ IH | x l1 l2 _ IH].
  - done.
  - rewrite !reverse_cons. by apply sublist_app.
  - rewrite reverse_cons. by apply sublist_inserts_r.
Qed.

(** What the loop answers, started with the keys [seen] and the list
    [compact]: it adds to [compact] a subsequence [added] of the records it
    walks through.  A record it adds has a non-blank key that was not
    seen, is the first of the walk with its key, and no two added records
    share a key; the loop stops as soon as the list has [max_notes]
    records. *)
Lemma compact_loop_spec recs seen compact (max_notes : Z) :
  Forall note_ok recs →
  ∃ added,
    compact_loop recs seen compact max_notes = Ok (compact ++ added) ∧
    added `sublist_of` recs ∧
    Forall (fun r => dedup_key r ≠ "" ∧ dedup_key r ∉ seen) added ∧
    NoDup (dedup_key <$> added) ∧
    Z.of_nat (length (compact ++ added))
      ≤ Z.max max_notes (Z.of_nat (length compact) + 1) ∧
    (∀ r, r ∈ added →
       ∃ pre post, recs = pre ++ r :: post ∧
                   Forall (fun x => dedup_key x ≠ dedup_key r) pre).
Proof.
  intros Hok. revert seen compact.
  induction Hok as [| rec rest Hrec Hrest IH]; intros seen compact.
  { exists []. rewrite app_nil_r. simpl.
    repeat split; try done; try constructor; try lia.
    intros r Hr. by apply elem_of_nil in Hr. }
  cbn [compact_loop]. rewrite (note_key_ok rec Hrec). simpl.
  set (k := dedup_key rec).
  destruct (Py.is_empty k) eqn:Hempty; simpl.
  - (* a blank note is skipped *)
    apply is_empty_true in Hempty.
    destruct (Z.geb_spec (Z.of_nat (length compact)) max_notes) as [Hge | Hlt].
    + exists []. rewrite app_nil_r.
      repeat split; try done; try constructor; try lia.
      * apply sublist_nil_l.
      * intros r Hr. by apply elem_of_nil in Hr.
    + destruct (IH seen compact) as (added & -> & Hsub & Hall & Hnd & Hlen & Hfirst).
      exists added. repeat split; try done.
      * by apply sublist_cons.
      * intros r Hr. destruct (Hfirst r Hr) as (pre & post & -> & Hpre).
        exists (rec :: pre), post. split; [done |]. constructor; [| done].
        rewrite Forall_forall in Hall. pose proof (Hall r Hr) as [Hne _].
        fold k. congruence.
  - destruct (bool_decide (k ∈ seen)) eqn:Hseen; simpl.
    + (* a key met before is skipped *)
      apply bool_decide_eq_true in Hseen.
      destruct (Z.geb_spec (Z.of_nat (length compact)) max_notes) as [Hge | Hlt].
      * exists []. rewrite app_nil_r.
        repeat split; try done; try constructor; try lia.
        -- apply sublist_nil_l.
        -- intros r Hr. by apply elem_of_nil in Hr.
      * destruct (IH seen compact)
          as (added & -> & Hsub & Hall & Hnd & Hlen & Hfirst).
        exists added. repeat split; try done.
        -- by apply sublist_cons.
        -- intros r Hr. destruct (Hfirst r Hr) as (pre & post & -> & Hpre).
           exists (rec :: pre), post. split; [done |]. constructor; [| done].
           rewrite Forall_forall in Hall. pose proof (Hall r Hr) as [_ Hns].
           fold k. intros Heq. apply Hns. by rewrite <- Heq.
    + (* a new key: the record is kept *)
      apply bool_decide_eq_false in Hseen.
      assert (k ≠ "") as Hk by (intros Hk; by rewrite Hk in Hempty).
      destruct (Z.geb_spec (Z.of_nat (length (compact ++ [rec]))) max_notes)
        as [Hge | Hlt].
      * exists [rec]. repeat split; try done.
        -- apply sublist_skip, sublist_nil_l.
        -- by repeat constructor.
        -- simpl. apply NoDup_singleton.
        -- rewrite length_app in *. simpl in *. lia.
        -- intros r Hr. apply list_elem_of_singleton in Hr as ->.
           exists [], rest. split; [done | constructor].
      * destruct (IH ({[k]} ∪ seen) (compact ++ [rec]))
          as (added & -> & Hsub & Hall & Hnd & Hlen & Hfirst).
        exists (rec :: added). rewrite <- app_assoc. simpl.
        assert (∀ r, r ∈ added →
                     dedup_key r ≠ "" ∧ dedup_key r ≠ k ∧ dedup_key r ∉ seen)
          as Hnew.
        { intros r Hr. rewrite Forall_forall in Hall.
          specialize (Hall r Hr) as [Hne Hns].
          rewrite elem_of_union, elem_of_singleton in Hns. tauto. }
        split; [done |]. split; [by apply sublist_skip |].
        split; [| split; [| split]].
        -- constructor; [done |]. apply Forall_forall. intros r Hr.
           specialize (Hnew r Hr). tauto.
        -- constructor; [| done]. intros Hin.
           apply list_elem_of_fmap in Hin as (r & Hkr & Hr).
           specialize (Hnew r Hr). fold k in Hkr. by intuition.
        -- rewrite <- app_assoc in Hlen. simpl in Hlen.
           rewrite !length_app in *. simpl in *. lia.
        -- intros r Hr. apply elem_of_cons in Hr as [-> | Hr].
           ++ exists [], rest. split; [done | constructor].
           ++ destruct (Hfirst r Hr) as (pre & post & -> & Hpre).
              exists (rec :: pre), post. split; [done |].
              constructor; [| done].
              specialize (Hnew r Hr). fold k. by intuition.
Qed.


(** Compaction on a store whose notes are text: it succeeds, and keeps a
    subsequence of the store without blank notes and without two notes of
    the same key; a kept record is the last of the store with its key; with
    [max_notes] at least 1, at most [max_notes] records are kept.  The
    file is written unless the store was empty. *)
Lemma compact_long_memory_spec (max_notes : Z) m fs :
  Forall note_ok (long_memory m) →
  ∃ kept,
    compact_long_memory max_notes m fs =
      Ok (set_long_memory kept m,
          if decide (long_memory m = []) then fs else save_ltm kept fs) ∧
    kept `sublist_of` long_memory m ∧
    Forall (fun r => ¬ blank r) kept ∧
    NoDup (dedup_key <$> kept) ∧
    (1 ≤ max_notes → Z.of_nat (length kept) ≤ max_notes) ∧
    (∀ r, r ∈ kept →
       ∃ pre post, long_memory m = pre ++ r :: post ∧
                   Forall (fun x => dedup_key x ≠ dedup_key r) post).
Proof.
  intros Hok. unfold compact_long_memory.
  destruct (long_memory m) as [| r0 lm0] eqn:E.
  { exists []. destruct m; simpl in *; subst.
    split; [done |]. split; [done |].
    split; [constructor |]. split; [constructor |]. split; [lia |].
    intros r Hr. by apply elem_of_nil in Hr. }
  assert (long_memory m ≠ []) as Hne by (by rewrite E).
  rewrite <- E in *. clear r0 lm0 E.
  destruct (compact_loop_spec (reverse (long_memory m)) ∅ [] max_notes)
    as (added & Hloop & Hsub & Hall & Hnd & Hlen & Hfirst).
  { by apply Forall_reverse. }
  rewrite Hloop. simpl.
  apply sublist_reverse in Hsub. rewrite reverse_involutive in Hsub.
  exists (reverse added). rewrite decide_False by done.
  split; [done |]. split; [done |].
  split; [| split; [| split]].
  - apply Forall_reverse. eapply Forall_impl; [exact Hall |].
    intros r [Hk _] Hb. by apply dedup_key_blank in Hb.
  - rewrite fmap_reverse. by rewrite reverse_Permutation.
  - intros HM. rewrite length_reverse. simpl in Hlen. lia.
  - intros r Hr. rewrite elem_of_reverse in Hr.
    destruct (Hfirst r Hr) as (pre & post & Hrev & Hpre).
    exists (reverse post), (reverse pre). split.
    + apply (f_equal reverse) in Hrev.
      rewrite reverse_involutive in Hrev. rewrite Hrev.
      by rewrite reverse_app, reverse_cons, <- app_assoc.
    + by apply Forall_reverse.
Qed.

Lemma compact_empty_store (max_notes : Z) m fs :
  long_memory m = [] → compact_long_memory max_notes m fs = Ok (m, fs).
Proof. intros H. unfold compact_long_memory. by rewrite H. Qed.

End Compaction.

(** C5 at [max_notes = 0]: the store holds one note, and compaction, told
    to keep at most none, keeps it (the loop tests the length of what it
    kept only after the record is in). *)
Theorem compact_cap_zero :
  long_memory one_note_store
    = [make_record "The lantern is cursed" tags_high 5 (-1)] ∧
  compact_long_memory 0 one_note_store no_files
    = Ok (one_note_store, save_ltm (long_memory one_note_store) no_files) ∧
  ¬ (Z.of_nat (length (long_memory one_note_store)) ≤ 0).
Proof. vm_compute. repeat split; try reflexivity. intros H. by apply H. Qed.

(** C10: compaction throws away every record whose note is blank (empty or
    white space only, [None] or missing), whatever [max_notes] is.  On a
    store whose notes are text it succeeds, what it keeps is a subsequence
    of the store without any blank note, and a store of blank notes only
    comes out empty. *)
Theorem compact_drops_blank_notes (max_notes : Z) (m : MemoryManager)
    (fs : files) :
  Forall note_ok (long_memory m) →
  ∃ m' fs',
    compact_long_memory max_notes m fs = Ok (m', fs') ∧
    long_memory m' `sublist_of` long_memory m ∧
    Forall (fun r => ¬ blank r) (long_memory m') ∧
    (Forall blank (long_memory m) → long_memory m' = []).
Proof.
  intros Hok.
  destruct (compact_long_memory_spec max_notes m fs Hok)
    as (kept & Hc & Hsub & Hnb & _).
  eexists _, _. split; [exact Hc |]. simpl. repeat split; try done.
  intros Hblank. destruct kept as [| r kept]; [done |]. exfalso.
  apply Forall_cons_1 in Hnb as [Hr _]. apply Hr.
  rewrite Forall_forall in Hblank. apply Hblank.
  eapply elem_of_sublist; [| exact Hsub]. by left.
Qed.

(** A store of two blank pinned notes is empty after compaction. *)
Lemma compact_drops_blank_notes_witness :
  Forall note_ok (long_memory blank_store) ∧
  Forall blank (long_memory blank_store) ∧
  length (long_memory blank_store) = 2%nat ∧
  ∃ m' fs', compact_long_memory 18 blank_store no_files = Ok (m', fs') ∧
            long_memory m' = [].
Proof.
  assert (Forall note_ok (long_memory blank_store)) as Hok
    by (repeat constructor; right; reflexivity).
  assert (Forall blank (long_memory blank_store)) as Hblank
    by (repeat constructor; reflexivity).
  split; [exact Hok |]. split; [exact Hblank |]. split; [reflexivity |].
  destruct (compact_drops_blank_notes 18 blank_store no_files Hok)
    as (m' & fs' & Hc & _ & _ & Hempty).
  exists m', fs'. split; [exact Hc | exact (Hempty Hblank)].
Defined.

(** ** Lightweight recall *)

Section SortDesc.

Context {A : Type}.
Implicit Types (x y : (Z * Z) * A) (l : list ((Z * Z) * A)).

Lemma key_ge_total (a b : Z * Z) : key_ge a b = false → key_ge b a = true.
Proof.
  unfold key_ge. destruct a as [a1 a2], b as [b1 b2]. simpl.
  rewrite orb_false_iff, andb_false_iff, orb_true_iff, andb_true_iff.
  rewrite !Z.ltb_lt, !Z.ltb_ge, !Z.eqb_eq, !Z.eqb_neq, !Z.leb_le, !Z.leb_gt.
  lia.
Qed.

Lemma key_ge_trans (a b c : Z * Z) :
  key_ge a b = true → key_ge b c = true → key_ge a c = true.
Proof.
  unfold key_ge. destruct a as [a1 a2], b as [b1 b2], c as [c1 c2]. simpl.
  rewrite !orb_true_iff, !andb_true_iff.
  rewrite !Z.ltb_lt, !Z.eqb_eq, !Z.leb_le. lia.
Qed.

(** [key_ge] spelled out: a greater score, or the same score and a turn
    that is not smaller. *)
Lemma key_ge_spec (a b : Z * Z) :
  key_ge a b = true ↔ b.1 < a.1 ∨ (a.1 = b.1 ∧ b.2 ≤ a.2).
Proof.
  unfold key_ge. rewrite orb_true_iff, andb_true_iff.
  by rewrite Z.ltb_lt, Z.eqb_eq, Z.leb_le.
Qed.

Lemma insert_desc_perm x l : insert_desc x l ≡ₚ x :: l.
Proof.
  induction l as [| y ys IH]; simpl; [done |].
  destruct (key_ge x.1 y.1); [done |].
  rewrite IH. apply Permutation_swap.
Qed.

Lemma sort_desc_perm l : sort_desc l ≡ₚ l.
Proof.
  induction l as [| x l IH]; simpl; [done |].
  rewrite insert_desc_perm. by rewrite IH.
Qed.

Lemma insert_desc_sorted x l :
  StronglySorted key_order l → StronglySorted key_order (insert_desc x l).
Proof.
  induction l as [| y ys IH]; intros Hs; simpl.
  - repeat constructor.
  - apply StronglySorted_cons in Hs as [Hy Hys].
    destruct (key_ge x.1 y.1) eqn:E.
    + apply StronglySorted_cons. split.
      * constructor; [done |].
        eapply Forall_impl; [exact Hy |]. intros z Hz.
        unfold key_order in *. by eapply key_ge_trans.
      * by apply StronglySorted_cons.
    + apply StronglySorted_cons. split; [| by apply IH].
      rewrite insert_desc_perm. constructor; [| done].
      by apply key_ge_total.
Qed.

Lemma sort_desc_sorted l : StronglySorted key_order (sort_desc l).
Proof.
  induction l as [| x l IH]; simpl; [constructor |].
  by apply insert_desc_sorted.
Qed.

End SortDesc.

Lemma StronglySorted_lookup_lt {A} (R : relation A) (l : list A) i j a b :
  StronglySorted R l → (i < j)%nat →
  l !! i = Some a → l !! j = Some b → R a b.
Proof.
  intros Hs. revert i j. induction Hs as [| x l Hs IH Hx]; intros i j Hij Hi Hj.
  - done.
  - destruct j as [| j]; [lia |]. simpl in Hj.
    destruct i as [| i]; simpl in Hi.
    + injection Hi as <-. rewrite Forall_forall in Hx.
      apply Hx. by eapply list_elem_of_lookup_2.
    + eapply IH; [| done | done]. lia.
Qed.

Section Recall.

Implicit Types (r : record) (l pool : list record) (m : MemoryManager)
  (cue : string) (focus : list string).

Lemma filterM_has_note_text l :
  Forall note_ok l →
  filterM has_note_text l = Ok (filter (fun r => ¬ blank r) l).
Proof.
  induction 1 as [| r l Hr _ IH]; [done |].
  cbn [filterM]. rewrite has_note_text_ok, IH by done. simpl.
  rewrite filter_cons. destruct (decide (¬ blank r)) as [Hnb | Hb].
  - by rewrite is_empty_false.
  - apply dec_stable in Hb. unfold blank in Hb. by rewrite Hb.
Qed.

Lemma score_ok cue focus r :
  note_ok r →
  score (Py.lower cue) (map Py.lower focus) r = Ok (rank_key cue focus r).
Proof.
  intros Hr. unfold score, rank_key, rank_score, rank_turn.
  rewrite note_or_empty_ok by done. simpl.
  destruct (any_token_in (map Py.lower focus) _),
    (any_token_in (Py.split (Py.lower cue)) _); simpl;
    do 2 f_equal; lia.
Qed.

Lemma mapM_score cue focus l :
  Forall note_ok l →
  mapM (score (Py.lower cue) (map Py.lower focus)) l
    = Ok (rank_key cue focus <$> l).
Proof.
  induction 1 as [| r l Hr _ IH]; [done |].
  cbn [mapM]. by rewrite score_ok, IH.
Qed.

Lemma zip_fmap_self {K} (f : record → K) l :
  zip (f <$> l) l = (fun r => (f r, r)) <$> l.
Proof. induction l as [| r l IH]; [done |]. csimpl. by rewrite IH. Qed.

Lemma bullet_ok r :
  note_ok r → ¬ blank r → bullet r = Ok ("- " +:+ note_text r).
Proof.
  unfold note_ok, blank, bullet, getitem, note_text, get.
  intros Hok Hnb.
  destruct (r !! "note") as [v |] eqn:E; simpl in *.
  - destruct Hok as [-> | Hs]; [done |]. by destruct v.
  - done.
Qed.

Lemma mapM_bullet l :
  Forall (fun r => note_ok r ∧ ¬ blank r) l →
  mapM bullet l = Ok ((fun r => "- " +:+ note_text r) <$> l).
Proof.
  induction 1 as [| r l [Hr Hb] _ IH]; [done |].
  cbn [mapM]. by rewrite bullet_ok, IH.
Qed.

Lemma slice_to_nonneg {A} (k : Z) (l : list A) :
  0 ≤ k → Py.slice_to k l = take (Z.to_nat k) l.
Proof.
  intros Hk. unfold Py.slice_to.
  destruct (Z.ltb_spec k 0) as [? | _]; [lia |].
  destruct (Z.le_gt_cases k (Z.of_nat (length l))) as [Hle | Hgt].
  - by rewrite Z.min_l.
  - rewrite Z.min_r by lia. rewrite Nat2Z.id.
    rewrite !take_ge; [done | lia | lia].
Qed.

(** The list that [sorted(pool, key=score, reverse=True)] answers. *)
Lemma sorted_by_key_desc_spec cue focus pool :
  Forall note_ok pool →
  ∃ ranked,
    sorted_by_key_desc (score (Py.lower cue) (map Py.lower focus)) pool
      = Ok ranked ∧
    ranked ≡ₚ pool ∧
    StronglySorted
      (fun r1 r2 => key_ge (rank_key cue focus r1) (rank_key cue focus r2) = true)
      ranked.
Proof.
  intros Hok. unfold sorted_by_key_desc. rewrite mapM_score by done. simpl.
  rewrite zip_fmap_self.
  set (d := (fun r => (rank_key cue focus r, r)) <$> pool).
  exists (snd <$> sort_desc d). split; [done |]. split.
  - rewrite sort_desc_perm. unfold d. rewrite <- list_fmap_compose.
    by rewrite list_fmap_id.
  - assert (Forall (fun p => p.1 = rank_key cue focus p.2) (sort_desc d)) as Hdec.
    { rewrite sort_desc_perm. unfold d. apply Forall_fmap.
      by apply Forall_true. }
    pose proof (sort_desc_sorted d) as Hs.
    induction Hs as [| p ps Hps IH Hp]; csimpl; [constructor |].
    apply Forall_cons_1 in Hdec as [Hp1 Hdec].
    constructor; [by apply IH |].
    apply Forall_fmap. rewrite Forall_forall in Hp, Hdec.
    apply Forall_forall. intros q Hq. simpl.
    rewrite <- Hp1, <- (Hdec q Hq). by apply Hp.
Qed.

Lemma pool_of_last_200 m :
  pool_of m =
  filter (fun r => ¬ blank r)
         (drop (length (long_memory m) - 200) (long_memory m)).
Proof. unfold pool_of. by rewrite (slice_from_neg _ 200). Qed.

End Recall.

(** C8, the claim as stated fails in two places.  A note of three spaces
    has a text that is not empty, so the pool of the claim holds it; the
    code trims the text first, ranks nothing and answers the empty string.
    And with the focus tokens [""] and ["Bob"] the code ranks Bob's note
    (key (2, 1)) before Alice's (key (1, 2)), because it skips the empty
    token; on the key of the claim the empty token, a substring of every
    note, counts for both, and Alice's note (2, 2) comes before Bob's
    (2, 1). *)
Lemma recall_skips_blank_and_empty_token :
  (long_memory spaces_store = [make_record "   " tags_high 5 (-1)] ∧
   claimed_pool spaces_store = long_memory spaces_store ∧
   recall_relevant [] 1 "" None spaces_store = Ok "") ∧
  (long_memory alice_bob_store = [rec_bob; rec_alice] ∧
   recall_ranked 2 "" (Some [""; "Bob"]) alice_bob_store
     = Ok [rec_bob; rec_alice] ∧
   recall_relevant [] 1 "" (Some [""; "Bob"]) alice_bob_store
     = Ok ("Relevant notes:" +:+ newline +:+ "- Bob sleeps") ∧
   claimed_key "" [""; "Bob"] rec_bob = (2, 1) ∧
   claimed_key "" [""; "Bob"] rec_alice = (2, 2) ∧
   key_ge (claimed_key "" [""; "Bob"] rec_bob)
          (claimed_key "" [""; "Bob"] rec_alice) = false).
Proof. repeat split; vm_compute; reflexivity. Qed.

(** C8, as amended: in Lightweight mode, on a store whose notes are text,
    [recall_relevant] ranks the pool made of those of the last 200 records
    whose note is not blank (not empty once trimmed).  The ranked list is
    a permutation of the pool in which a record stands before another only
    if its score is greater, or the scores are equal and its turn is not
    smaller, where the score is the priority (coerced to an integer, 1 by
    default), plus 1 if a non-empty focus token occurs, case-insensitively,
    in the note, plus 1 if a white-space-separated token of the cue does.
    The answer lists the first [k] notes of the ranking under the header,
    or is empty when there is none.  It is a function of the store, the
    cue, the focus list and [k] alone. *)
Theorem recall_lightweight_ranking (hits : list string) (k : Z) (cue : string)
    (npc_focus : option (list string)) (m : MemoryManager) :
  use_semantic_rag m = false →
  Forall note_ok (long_memory m) →
  0 ≤ k →
  let focus := default [] npc_focus in
  ∃ ranked,
    pool_of m =
      filter (fun r => ¬ blank r)
             (drop (length (long_memory m) - 200) (long_memory m)) ∧
    ranked ≡ₚ pool_of m ∧
    (∀ i j ri rj,
       (i < j)%nat → ranked !! i = Some ri → ranked !! j = Some rj →
       rank_score cue focus rj < rank_score cue focus ri ∨
       (rank_score cue focus ri = rank_score cue focus rj ∧
        rank_turn rj ≤ rank_turn ri)) ∧
    recall_ranked k cue npc_focus m = Ok (take (Z.to_nat k) ranked) ∧
    recall_relevant hits k cue npc_focus m
      = Ok (render_notes (take (Z.to_nat k) ranked)) ∧
    (∀ hits' m',
       use_semantic_rag m' = false → long_memory m' = long_memory m →
       recall_relevant hits' k cue npc_focus m'
         = recall_relevant hits k cue npc_focus m).
Proof.
  intros Hrag Hok Hk focus.
  assert (Forall note_ok (Py.slice_from (-200) (long_memory m))) as Hok200.
  { rewrite (slice_from_neg _ 200) by lia. by apply Forall_drop. }
  assert (recall_pool m = Ok (pool_of m)) as Hpool
    by (by apply filterM_has_note_text).
  assert (Forall (fun r => note_ok r ∧ ¬ blank r) (pool_of m)) as Hpok.
  { apply Forall_forall. intros r Hr.
    apply list_elem_of_filter in Hr as [Hnb Hr].
    rewrite Forall_forall in Hok200. auto. }
  destruct (sorted_by_key_desc_spec cue focus (pool_of m))
    as (ranked & Hsort & Hperm & Hsorted).
  { eapply Forall_impl; [exact Hpok |]. by intros r [? _]. }
  assert (recall_ranked k cue npc_focus m = Ok (take (Z.to_nat k) ranked))
    as Hranked.
  { unfold recall_ranked. rewrite Hpool. simpl. fold focus.
    rewrite Hsort. simpl. by rewrite slice_to_nonneg. }
  exists ranked.
  split; [apply pool_of_last_200 |]. split; [done |].
  split; [| split; [done |]; split].
  - intros i j ri rj Hij Hi Hj.
    pose proof (StronglySorted_lookup_lt _ _ _ _ _ _ Hsorted Hij Hi Hj) as H.
    by apply key_ge_spec in H.
  - unfold recall_relevant. rewrite Hrag, Hranked. simpl.
    rewrite mapM_bullet.
    + simpl. unfold render_notes. by destruct (take (Z.to_nat k) ranked).
    + apply Forall_take. by rewrite Hperm.
  - intros hits' m' Hrag' Hlm.
    unfold recall_relevant, recall_ranked, recall_pool.
    by rewrite Hrag, Hrag', Hlm.
Qed.

(** Recall of one note with the focus token Bob, over the two notes of
    Bob and Alice. *)
Lemma recall_lightweight_ranking_witness :
  use_semantic_rag alice_bob_store = false ∧
  Forall note_ok (long_memory alice_bob_store) ∧
  0 ≤ 1 ∧
  ∃ ranked,
    ranked ≡ₚ pool_of alice_bob_store ∧
    recall_relevant [] 1 "" (Some ["Bob"]) alice_bob_store
      = Ok (render_notes (take 1 ranked)).
Proof.
  assert (Forall note_ok (long_memory alice_bob_store)) as Hok
    by (repeat constructor; right; reflexivity).
  split; [reflexivity |]. split; [exact Hok |]. split; [lia |].
  destruct (recall_lightweight_ranking [] 1 "" (Some ["Bob"]) alice_bob_store)
    as (ranked & _ & Hperm & _ & _ & Hans & _);
    [reflexivity | exact Hok | lia |].
  exists ranked. split; [exact Hperm | exact Hans].
Defined.

(** ** The notes of a reachable store are text *)

Section StoreInvariant.

Implicit Types (r : record) (m : MemoryManager) (fs : files).

Lemma note_ok_make_record (note : string) (tags : value) (p t : Z) :
  note_ok (make_record note tags p t).
Proof. right. unfold make_record. by rewrite get_insert_eq. Qed.

Lemma _rag_add_text_long_memory (text : string) m :
  long_memory (_rag_add_text text m) = long_memory m.
Proof. unfold _rag_add_text. by destruct (Py.is_empty text). Qed.

Lemma _init_rag_index_long_memory m :
  long_memory (_init_rag_index m) = long_memory m.
Proof.
  unfold _init_rag_index.
  change (long_memory m) with (long_memory (set_corpus [] m)) at 2.
  generalize (set_corpus [] m). generalize (long_memory m) at 1.
  intros l. induction l as [| r l IH]; intros m0; simpl; [done |].
  rewrite IH. apply _rag_add_text_long_memory.
Qed.

Lemma init_store_ok (rag_ok : bool) (w : Z) (rag : bool) fs :
  Forall note_ok (long_memory (init rag_ok w rag fs).1).
Proof.
  unfold init.
  pose proof (normalize_loop_ok (load_ltm fs) false) as Hok.
  rewrite <- _normalize_records_fst with (fs := fs) in Hok.
  destruct (_normalize_records (load_ltm fs) fs) as [lm fs']. simpl in *.
  assert (Forall note_ok lm) as Hn.
  { eapply Forall_impl; [exact Hok |]. by intros r (_ & _ & H). }
  destruct (rag && rag_ok); simpl; [| done].
  by rewrite _init_rag_index_long_memory.
Qed.

Lemma extract_store_ok (reply : string) (turn : Z) m fs :
  Forall note_ok (long_memory m) →
  Forall note_ok (long_memory (extract_key_events reply turn m fs).1).
Proof.
  unfold extract_key_events. simpl.
  match goal with |- context [fold_left _ ?c m] => generalize c end.
  intros chosen. revert m.
  induction chosen as [| ln chosen IH]; intros m Hm; simpl; [done |].
  apply IH. simpl.
  destruct (use_semantic_rag m); rewrite ?_rag_add_text_long_memory; simpl;
    (apply Forall_app; split; [done |]);
    (constructor; [apply note_ok_make_record | constructor]).
Qed.

(** Every manager the turn loop can reach holds notes that are strings,
    [None] or absent: the hypothesis under which recall and compaction
    are stated. *)
Lemma reachable_store_ok m fs :
  reachable m fs → Forall note_ok (long_memory m).
Proof.
  induction 1 as [rag_ok w rag fs | u d m fs _ IH | h m fs _ IH | m fs _ IH
                 | note m fs _ IH | reply turn m fs _ IH
                 | max_notes m fs m' fs' _ IH Hc].
  - apply init_store_ok.
  - done.
  - unfold add_consistency_hint. by destruct (_ && _).
  - unfold pop_consistency_hints. by destruct (hints m).
  - rewrite pin_note_long_memory. apply Forall_app. split; [done |].
    constructor; [apply note_ok_make_record | constructor].
  - by apply extract_store_ok.
  - destruct (compact_long_memory_spec max_notes m fs IH)
      as (kept & Hk & Hsub & _).
    rewrite Hk in Hc. injection Hc as <- _. simpl.
    rewrite Forall_forall in IH. apply Forall_forall. intros r Hr.
    apply IH. by eapply elem_of_sublist.
Qed.

End StoreInvariant.

(** ** Further properties of the short-term window *)

(** X1: with a window of at least one turn, [get_short_context] renders
    the last [min N W] turns of the history, oldest first, two lines a
    turn, joined by newlines. *)
Theorem short_context_last_turns (m : MemoryManager) :
  1 ≤ short_window m →
  ∃ older tail,
    turns m = older ++ tail ∧
    Z.of_nat (length tail)
      = Z.min (Z.of_nat (length (turns m))) (short_window m) ∧
    length (short_context_lines m) = (2 * length tail)%nat ∧
    get_short_context m = Py.join newline (concat (map turn_lines tail)).
Proof.
  intros HW. destruct (short_context_window m HW)
    as (tail & older & Ht & Hlen & Hlines & Hctx).
  exists older, tail. split; [done |]. split; [done |]. split; [| done].
  rewrite Hlines. apply length_concat_turn_lines.
Qed.

(** Three turns under a window of two: the last two are rendered. *)
Lemma short_context_last_turns_witness :
  1 ≤ short_window
        (add_turn "c" "C" (add_turn "b" "B" (add_turn "a" "A" (fresh 2)))) ∧
  ∃ older tail,
    turns (add_turn "c" "C" (add_turn "b" "B" (add_turn "a" "A" (fresh 2))))
      = older ++ tail ∧
    length (short_context_lines
      (add_turn "c" "C" (add_turn "b" "B" (add_turn "a" "A" (fresh 2)))))
      = (2 * length tail)%nat.
Proof.
  split; [vm_compute; discriminate |].
  destruct (short_context_last_turns
    (add_turn "c" "C" (add_turn "b" "B" (add_turn "a" "A" (fresh 2)))))
    as (older & tail & H1 & _ & H3 & _); [vm_compute; discriminate |].
  exists older, tail. split; [exact H1 | exact H3].
Defined.



(** ** Further properties of compaction *)

Section CompactionMore.

Implicit Types (r : record) (recs compact : list record)
  (seen : gset string) (m : MemoryManager) (fs : files).

(** On records without blank or repeated keys, none of them seen, and few
    enough for the cap, the loop keeps every record. *)
Lemma compact_loop_keeps_all recs seen compact (max_notes : Z) :
  Forall note_ok recs →
  Forall (fun r => dedup_key r ≠ "" ∧ dedup_key r ∉ seen) recs →
  NoDup (dedup_key <$> recs) →
  Z.of_nat (length compact) + Z.of_nat (length recs) ≤ Z.max max_notes 1 →
  compact_loop recs seen compact max_notes = Ok (compact ++ recs).
Proof.
  intros Hok. revert seen compact.
  induction Hok as [| rec rest Hrec _ IH]; intros seen compact Hnew Hnd Hlen.
  { by rewrite app_nil_r. }
  apply Forall_cons_1 in Hnew as [[Hk Hns] Hnew].
  apply NoDup_cons in Hnd as [Hnin Hnd].
  cbn [compact_loop]. rewrite (note_key_ok rec Hrec). simpl.
  rewrite is_empty_false by done.
  rewrite bool_decide_eq_false_2 by done. simpl.
  destruct (Z.geb_spec (Z.of_nat (length (compact ++ [rec]))) max_notes)
    as [Hge | Hlt].
  - rewrite length_app in Hge. simpl in *.
    destruct rest; [done |]. simpl in Hlen. lia.
  - rewrite IH; [by rewrite <- app_assoc | | done |].
    + rewrite Forall_forall in Hnew. apply Forall_forall. intros r Hr.
      destruct (Hnew r Hr) as [Hkr Hnsr]. split; [done |].
      rewrite elem_of_union, elem_of_singleton. intros [Heq | Hin]; [| done].
      apply Hnin. rewrite <- Heq. apply list_elem_of_fmap. by exists r.
    + rewrite length_app. simpl in *. lia.
Qed.

(** What compaction keeps, for any [max_notes]: at most [max_notes]
    records, or one when [max_notes] is below 1. *)
Lemma compact_kept_bound (max_notes : Z) m fs m' fs' :
  Forall note_ok (long_memory m) →
  compact_long_memory max_notes m fs = Ok (m', fs') →
  long_memory m = long_memory m' ∧ long_memory m = [] ∨
  Z.of_nat (length (long_memory m')) ≤ Z.max max_notes 1.
Proof.
  intros Hok Hc. unfold compact_long_memory in Hc.
  destruct (long_memory m) as [| r0 lm0] eqn:E.
  { injection Hc as <- <-. left. by rewrite E. }
  right. rewrite <- E in *.
  destruct (compact_loop_spec (reverse (long_memory m)) ∅ [] max_notes)
    as (added & Hloop & _ & _ & _ & Hlen & _).
  { by apply Forall_reverse. }
  rewrite Hloop in Hc. simpl in Hc. injection Hc as <- <-. simpl.
  rewrite length_reverse. simpl in Hlen. lia.
Qed.

End CompactionMore.

(** X3: with [max_notes] at least 1, on a store whose notes are text,
    compaction succeeds and leaves at most [max_notes] records, no two
    with the same trimmed lowercased note, in the order they had in the
    store, each being the last record of the store with its note. *)
Theorem compact_caps_and_dedups (max_notes : Z) (m : MemoryManager)
    (fs : files) :
  1 ≤ max_notes →
  Forall note_ok (long_memory m) →
  ∃ m' fs',
    compact_long_memory max_notes m fs = Ok (m', fs') ∧
    Z.of_nat (length (long_memory m')) ≤ max_notes ∧
    NoDup (dedup_key <$> long_memory m') ∧
    long_memory m' `sublist_of` long_memory m ∧
    (∀ r, r ∈ long_memory m' →
       ∃ pre post, long_memory m = pre ++ r :: post ∧
                   Forall (fun x => dedup_key x ≠ dedup_key r) post).
Proof.
  intros HM Hok.
  destruct (compact_long_memory_spec max_notes m fs Hok)
    as (kept & Hc & Hsub & _ & Hnd & Hlen & Hlast).
  eexists _, _. split; [exact Hc |]. simpl. auto.
Qed.

(** The three-note store under the default cap. *)
Lemma compact_caps_and_dedups_witness :
  1 ≤ 18 ∧ Forall note_ok (long_memory three_note_store) ∧
  ∃ m' fs',
    compact_long_memory 18 three_note_store no_files = Ok (m', fs') ∧
    Z.of_nat (length (long_memory m')) ≤ 18 ∧
    NoDup (dedup_key <$> long_memory m').
Proof.
  assert (Forall note_ok (long_memory three_note_store)) as Hok
    by (repeat (constructor; [right; reflexivity |]); constructor).
  split; [lia |]. split; [exact Hok |].
  destruct (compact_caps_and_dedups 18 three_note_store no_files) as
    (m' & fs' & Hc & Hlen & Hnd & _); [lia | exact Hok |].
  exists m', fs'. split; [exact Hc |]. split; [exact Hlen | exact Hnd].
Defined.

(** X4: compaction is idempotent.  On a store whose notes are text, a
    second compaction with the same [max_notes] changes neither the store
    nor the file that the first one left. *)
Theorem compact_idempotent (max_notes : Z) (m m' : MemoryManager)
    (fs fs' : files) :
  Forall note_ok (long_memory m) →
  compact_long_memory max_notes m fs = Ok (m', fs') →
  compact_long_memory max_notes m' fs' = Ok (m', fs').
Proof.
  intros Hok Hc.
  pose proof (compact_kept_bound max_notes m fs m' fs' Hok Hc) as Hbound.
  destruct (compact_long_memory_spec max_notes m fs Hok)
    as (kept & Hc' & Hsub & Hnb & Hnd & _ & _).
  rewrite Hc' in Hc. injection Hc as <- <-. simpl in *.
  destruct (decide (long_memory m = [])) as [He | Hne].
  { apply compact_empty_store. simpl. apply sublist_nil_r.
    by rewrite He in Hsub. }
  destruct Hbound as [[_ ?] | Hbound]; [done |].
  unfold compact_long_memory. simpl.
  destruct kept as [| r0 kept0] eqn:Ek; [done |]. rewrite <- Ek in *.
  rewrite compact_loop_keeps_all.
  - simpl. rewrite reverse_involutive. by destruct m.
  - apply Forall_reverse. rewrite Forall_forall. intros r Hr.
    rewrite Forall_forall in Hok. apply Hok. by eapply elem_of_sublist.
  - apply Forall_reverse. eapply Forall_impl; [exact Hnb |].
    intros r Hr. split; [| set_solver]. intros Hk. by apply dedup_key_blank in Hk.
  - rewrite fmap_reverse. by rewrite reverse_Permutation.
  - rewrite length_reverse. simpl. lia.
Qed.

(** The three-note store: two notes are left, and stay. *)
Lemma compact_idempotent_witness :
  Forall note_ok (long_memory three_note_store) ∧
  ∃ m' fs',
    compact_long_memory 18 three_note_store no_files = Ok (m', fs') ∧
    length (long_memory m') = 2%nat ∧
    compact_long_memory 18 m' fs' = Ok (m', fs').
Proof.
  assert (Forall note_ok (long_memory three_note_store)) as Hok
    by (repeat (constructor; [right; reflexivity |]); constructor).
  split; [exact Hok |].
  destruct (compact_long_memory 18 three_note_store no_files)
    as [[m' fs'] | e] eqn:Hc; [| vm_compute in Hc; discriminate].
  exists m', fs'. split; [reflexivity |]. split.
  - vm_compute in Hc. injection Hc as <- _. reflexivity.
  - exact (compact_idempotent 18 three_note_store m' no_files fs' Hok Hc).
Defined.

(** X5: the newest note survives compaction whatever [max_notes] is.  When
    the last record of the store has a note that is not blank, the store
    after compaction ends with that record, after records kept from the
    older ones. *)
Theorem compact_keeps_newest (max_notes : Z) (m : MemoryManager) (fs : files)
    (older : list record) (r : record) :
  long_memory m = older ++ [r] →
  Forall note_ok (long_memory m) →
  ¬ blank r →
  ∃ m' fs' kept,
    compact_long_memory max_notes m fs = Ok (m', fs') ∧
    long_memory m' = kept ++ [r] ∧
    kept `sublist_of` older.
Proof.
  intros Hlm Hok Hnb. unfold compact_long_memory.
  rewrite Hlm in *. rewrite reverse_snoc.
  apply Forall_app in Hok as [Holder Hr]. apply Forall_cons_1 in Hr as [Hr _].
  assert (dedup_key r ≠ "") as Hk by (by rewrite dedup_key_blank).
  destruct (older ++ [r]) as [| x xs] eqn:E; [by destruct older |].
  cbn [compact_loop]. rewrite (note_key_ok r Hr). simpl.
  rewrite is_empty_false by done.
  rewrite bool_decide_eq_false_2 by set_solver. simpl.
  destruct (_ >=? max_notes).
  - simpl. eexists _, _, []. split; [reflexivity |]. simpl.
    split; [reflexivity | apply sublist_nil_l].
  - destruct (compact_loop_spec (reverse older) ({[dedup_key r]} ∪ ∅) [r]
                                max_notes)
      as (added & Hloop & Hsub & _); [by apply Forall_reverse |].
    rewrite Hloop. simpl. eexists _, _, (reverse added).
    split; [reflexivity |]. simpl. split.
    + by rewrite reverse_cons.
    + apply sublist_reverse in Hsub. by rewrite reverse_involutive in Hsub.
Qed.

Lemma compact_keeps_newest_witness :
  Forall note_ok (long_memory three_note_store) ∧
  ¬ blank (make_record " the KEY " tags_high 5 (-1)) ∧
  ∃ m' fs' kept,
    compact_long_memory 1 three_note_store no_files = Ok (m', fs') ∧
    long_memory m' = kept ++ [make_record " the KEY " tags_high 5 (-1)].
Proof.
  assert (Forall note_ok (long_memory three_note_store)) as Hok
    by (repeat (constructor; [right; reflexivity |]); constructor).
  assert (¬ blank (make_record " the KEY " tags_high 5 (-1))) as Hnb
    by (vm_compute; discriminate).
  split; [exact Hok |]. split; [exact Hnb |].
  destruct (compact_keeps_newest 1 three_note_store no_files
              [make_record "The key" tags_high 5 (-1);
               make_record "a map" tags_high 5 (-1)]
              (make_record " the KEY " tags_high 5 (-1)))
    as (m' & fs' & kept & Hc & Hlm & _);
    [reflexivity | exact Hok | exact Hnb |].
  exists m', fs', kept. split; [exact Hc | exact Hlm].
Defined.

(** X6: with [max_notes] at 0 or below, compaction of a store that is not
    empty leaves the newest record alone, or nothing when the note of the
    newest record is blank; the older records are not even looked at. *)
Theorem compact_without_room (max_notes : Z) (m : MemoryManager) (fs : files)
    (older : list record) (r : record) :
  max_notes ≤ 0 →
  long_memory m = older ++ [r] →
  note_ok r →
  let kept := if Py.is_empty (Py.strip (note_text r)) then [] else [r] in
  compact_long_memory max_notes m fs
    = Ok (set_long_memory kept m, save_ltm kept fs).
Proof.
  intros HM Hlm Hr. unfold compact_long_memory.
  rewrite Hlm. rewrite reverse_snoc.
  destruct (older ++ [r]) as [| x xs] eqn:E; [by destruct older |].
  cbn [compact_loop]. rewrite (note_key_ok r Hr). simpl.
  unfold dedup_key. rewrite lower_is_empty.
  destruct (Py.is_empty (Py.strip (note_text r))); simpl.
  - destruct (Z.geb_spec (Z.of_nat 0) max_notes); [done | lia].
  - rewrite bool_decide_eq_false_2 by set_solver. simpl.
    destruct (Z.geb_spec (Z.of_nat 1) max_notes); [done | lia].
Qed.

Lemma compact_without_room_witness :
  0 ≤ 0 ∧ note_ok (make_record " the KEY " tags_high 5 (-1)) ∧
  compact_long_memory 0 three_note_store no_files
    = Ok (set_long_memory [make_record " the KEY " tags_high 5 (-1)]
                          three_note_store,
          save_ltm [make_record " the KEY " tags_high 5 (-1)] no_files).
Proof.
  split; [lia |]. split; [right; reflexivity |].
  apply (compact_without_room 0 three_note_store no_files
           [make_record "The key" tags_high 5 (-1);
            make_record "a map" tags_high 5 (-1)]
           (make_record " the KEY " tags_high 5 (-1)));
    [lia | reflexivity | right; reflexivity].
Defined.

(** ** Further properties of normalisation *)

Section NormalizeMore.

Implicit Types (r : record) (recs : list record) (c : bool) (k : string).

Lemma normalize_turn_lookup r c k :
  k ≠ "turn" → (normalize_turn r c).1 !! k = r !! k.
Proof.
  intros Hk. unfold normalize_turn.
  destruct (isinstance_int (get r "turn")); simpl; [done |].
  by rewrite lookup_insert_ne.
Qed.

Lemma normalize_note_lookup r c k :
  k ≠ "note" → (normalize_note r c).1 !! k = r !! k.
Proof.
  intros Hk. unfold normalize_note.
  destruct (get r "note"); simpl; try done; by rewrite lookup_insert_ne.
Qed.

Lemma normalize_record_lookup r c k :
  k ≠ "priority" → k ≠ "turn" → k ≠ "note" →
  (normalize_record r c).1 !! k = r !! k.
Proof.
  intros H1 H2 H3. rewrite normalize_record_unfold.
  rewrite normalize_note_lookup, normalize_turn_lookup by done.
  by apply normalize_priority_lookup.
Qed.

(** No key is lost: a key of the record is a key of its normal form. *)
Lemma normalize_record_keeps_keys r c k :
  is_Some (r !! k) → is_Some ((normalize_record r c).1 !! k).
Proof.
  intros Hk. rewrite normalize_record_unfold.
  assert (∀ r0 c0, is_Some (r0 !! k) →
                   is_Some ((normalize_priority r0 c0).1 !! k)) as Hp.
  { intros r0 c0 H0. unfold normalize_priority.
    destruct (isinstance_int _); simpl; [done |].
    rewrite lookup_insert. case_decide; [by eexists | done]. }
  assert (∀ r0 c0, is_Some (r0 !! k) →
                   is_Some ((normalize_turn r0 c0).1 !! k)) as Ht.
  { intros r0 c0 H0. unfold normalize_turn.
    destruct (isinstance_int _); simpl; [done |].
    rewrite lookup_insert. case_decide; [by eexists | done]. }
  assert (∀ r0 c0, is_Some (r0 !! k) →
                   is_Some ((normalize_note r0 c0).1 !! k)) as Hn.
  { intros r0 c0 H0. unfold normalize_note.
    destruct (get r0 "note"); simpl; try done;
      rewrite lookup_insert; case_decide; by eauto. }
  by apply Hn, Ht, Hp.
Qed.

(** The flag only goes up, and it goes up on a record that is not in
    normal form. *)
Lemma normalize_record_flag r c :
  (normalize_record r c).2 = true ↔ c = true ∨ ¬ record_ok r.
Proof.
  unfold record_ok, note_ok, normalize_record, normalize_priority,
    normalize_turn, normalize_note.
  destruct (isinstance_int (get r "priority")) eqn:Ep; simpl.
  - destruct (isinstance_int (get r "turn")) eqn:Et; simpl.
    + destruct (get r "note") eqn:En; simpl; destruct c; intuition congruence.
    + rewrite get_insert_ne by done.
      destruct (get r "note"); simpl; intuition congruence.
  - destruct (isinstance_int (get (<["priority":=_]> r) "turn")) eqn:Et; simpl.
    + rewrite get_insert_ne by done.
      destruct (get r "note"); simpl; intuition congruence.
    + rewrite !get_insert_ne by done.
      destruct (get r "note"); simpl; intuition congruence.
Qed.

Lemma record_ok_dec r : record_ok r ∨ ¬ record_ok r.
Proof.
  unfold record_ok, note_ok.
  destruct (isinstance_int (get r "priority")),
    (isinstance_int (get r "turn")), (get r "note");
    simpl; intuition congruence.
Qed.

Lemma normalize_loop_flag recs c :
  (normalize_loop recs c).2 = true ↔ c = true ∨ ¬ Forall record_ok recs.
Proof.
  revert c. induction recs as [| r rest IH]; intros c; simpl.
  { split; [auto |]. intros [? | H]; [done |]. destruct H. constructor. }
  pose proof (normalize_record_flag r c) as Hr.
  destruct (normalize_record r c) as [r' c1]. simpl in Hr.
  specialize (IH c1). destruct (normalize_loop rest c1) as [rest' c2].
  simpl in *. rewrite IH, Hr. rewrite Forall_cons.
  destruct (record_ok_dec r); tauto.
Qed.

End NormalizeMore.

(** X7: normalisation touches nothing but the three fields.  Every record
    keeps its position, all its keys, and the value of every key other
    than priority, turn and note (its tags among them). *)
Theorem normalize_keeps_other_fields (recs : list record) (fs : files)
    (i : nat) (r : record) :
  recs !! i = Some r →
  ∃ r', (_normalize_records recs fs).1 !! i = Some r' ∧
        (∀ k, is_Some (r !! k) → is_Some (r' !! k)) ∧
        (∀ k, k ≠ "priority" → k ≠ "turn" → k ≠ "note" → r' !! k = r !! k).
Proof.
  intros Hi. rewrite _normalize_records_fst.
  destruct (normalize_loop_lookup recs false i r Hi) as [c0 H0].
  exists (normalize_record r c0).1. split; [done |]. split.
  - intros k. apply normalize_record_keeps_keys.
  - intros k. apply normalize_record_lookup.
Qed.

(** A record with a string for its priority keeps its tags. *)
Lemma normalize_keeps_other_fields_witness :
  ∃ r', (_normalize_records
           [<["priority" := VStr "3"]> (make_record "x" tags_high 5 1)]
           no_files).1 !! 0%nat = Some r' ∧
        r' !! "tags" = Some tags_high.
Proof.
  destruct (normalize_keeps_other_fields
              [<["priority" := VStr "3"]> (make_record "x" tags_high 5 1)]
              no_files 0
              (<["priority" := VStr "3"]> (make_record "x" tags_high 5 1)))
    as (r' & Hr' & _ & Hk); [reflexivity |].
  exists r'. split; [exact Hr' |].
  rewrite Hk by discriminate. reflexivity.
Defined.

Lemma normalize_writes_iff_repaired_aux (recs : list record) (fs : files) :
  (Forall record_ok recs → _normalize_records recs fs = (recs, fs)) ∧
  (¬ Forall record_ok recs →
     (_normalize_records recs fs).2
       = save_ltm (_normalize_records recs fs).1 fs).
Proof.
  split.
  - intros Hok. unfold _normalize_records.
    by rewrite (normalize_loop_fixed recs false Hok).
  - intros Hno. unfold _normalize_records.
    pose proof (normalize_loop_flag recs false) as Hflag.
    destruct (normalize_loop recs false) as [recs' changed]. simpl in *.
    assert (changed = true) as -> by (apply Hflag; by right). done.
Qed.

(** X8: normalisation writes the long-term file exactly when it had
    something to repair.  If every record is in normal form (integer
    priority and turn, note a string, [None] or absent) the records come
    back as they were and the files are untouched; otherwise the file
    receives the repaired list, in which every record is in normal form. *)
Theorem normalize_writes_iff_repaired (recs : list record) (fs : files) :
  (Forall record_ok recs → _normalize_records recs fs = (recs, fs)) ∧
  (¬ Forall record_ok recs →
     ltm_file (_normalize_records recs fs).2
       = Some (_normalize_records recs fs).1 ∧
     Forall record_ok (_normalize_records recs fs).1).
Proof.
  destruct (normalize_writes_iff_repaired_aux recs fs) as [H1 H2].
  split; [exact H1 |]. intros Hno. rewrite (H2 Hno). split; [done |].
  rewrite _normalize_records_fst. apply normalize_loop_ok.
Qed.

(** One list that is in normal form, and one that is not. *)
Lemma normalize_writes_iff_repaired_witness :
  _normalize_records [make_record "x" tags_high 5 1] no_files
    = ([make_record "x" tags_high 5 1], no_files) ∧
  ltm_file (_normalize_records [rec_null_note; ∅] no_files).2
    = Some (_normalize_records [rec_null_note; ∅] no_files).1.
Proof.
  destruct (normalize_writes_iff_repaired [make_record "x" tags_high 5 1]
              no_files) as [H1 _].
  destruct (normalize_writes_iff_repaired [rec_null_note; ∅] no_files)
    as [_ H2].
  split.
  - apply H1. constructor; [vm_compute; auto | constructor].
  - apply H2. intros H. apply Forall_cons_1 in H as [_ H].
    apply Forall_cons_1 in H as [[H _] _]. vm_compute in H. discriminate.
Defined.

(** ** The note extractor *)

Section Extractor.

Implicit Types (ln : string) (lines kept : list string)
  (m : MemoryManager) (fs : files).

(** The loop with its [break] takes the first sentences with an action
    word until it holds two. *)
Lemma keep_lines_take lines kept :
  (length kept < 2)%nat →
  keep_lines lines kept
    = kept ++ take (2 - length kept) (filter has_action lines).
Proof.
  revert kept. induction lines as [| ln lines IH]; intros kept Hk.
  { simpl. by rewrite filter_nil, take_nil, app_nil_r. }
  cbn [keep_lines]. rewrite filter_cons.
  destruct (decide (has_action ln)) as [Ha | Hna].
  - unfold has_action in Ha. rewrite Ha.
    destruct (Nat.leb_spec 2 (length (kept ++ [ln]))) as [Hge | Hlt].
    + rewrite length_app in Hge. simpl in Hge.
      replace (2 - length kept)%nat with 1%nat by lia.
      cbn [take]. by rewrite take_0.
    + rewrite IH by done. rewrite length_app in *. simpl in Hlt.
      cbn [length]. 
      replace (2 - length kept)%nat with (S (2 - (length kept + 1))) by lia.
      cbn [take]. by rewrite <- app_assoc.
  - unfold has_action in Hna. apply not_true_is_false in Hna. rewrite Hna.
    destruct (Nat.leb_spec 2 (length kept)); [lia |]. by apply IH.
Qed.

(** The sentences that get filed. *)
Lemma extract_chosen dm_reply :
  match keep_lines (reply_lines dm_reply) [] with
  | [] => Py.slice_to 1 (reply_lines dm_reply)
  | _ :: _ => keep_lines (reply_lines dm_reply) []
  end
  = match filter has_action (reply_lines dm_reply) with
    | [] => take 1 (reply_lines dm_reply)
    | hits => take 2 hits
    end.
Proof.
  rewrite keep_lines_take by (simpl; lia). simpl.
  destruct (filter has_action (reply_lines dm_reply)) as [| h hits].
  - simpl. by rewrite slice_to_nonneg.
  - done.
Qed.

Lemma extract_fold (turn : Z) (chosen : list string) m :
  long_memory
    (fold_left
       (fun m ln =>
          if use_semantic_rag m
          then _rag_add_text ln
                 (set_long_memory
                    (long_memory m ++
                     [make_record ln tags_none (_priority ln) turn]) m)
          else set_long_memory
                 (long_memory m ++
                  [make_record ln tags_none (_priority ln) turn]) m)
       chosen m)
  = long_memory m ++ (extracted turn <$> chosen).
Proof.
  revert m. induction chosen as [| ln chosen IH]; intros m; simpl.
  { by rewrite app_nil_r. }
  rewrite IH. simpl.
  destruct (use_semantic_rag m); rewrite ?_rag_add_text_long_memory; simpl;
    by rewrite <- app_assoc.
Qed.

Lemma extract_long_memory dm_reply (turn : Z) m fs :
  long_memory (extract_key_events dm_reply turn m fs).1
  = long_memory m ++
    (extracted turn <$>
       match filter has_action (reply_lines dm_reply) with
       | [] => take 1 (reply_lines dm_reply)
       | hits => take 2 hits
       end).
Proof.
  unfold extract_key_events. cbv zeta. simpl fst.
  fold (reply_lines dm_reply).
  rewrite extract_fold. by rewrite extract_chosen.
Qed.

Lemma reply_lines_text dm_reply ln :
  ln ∈ reply_lines dm_reply →
  ln ≠ "" ∧
  ∃ piece, piece ∈ split_on is_sentence_end dm_reply EmptyString ∧
           ln = Py.strip piece.
Proof.
  unfold reply_lines. intros H.
  change (map Py.strip ?l) with (Py.strip <$> l) in H.
  apply list_elem_of_fmap in H as (piece & -> & Hp).
  apply list_elem_of_filter in Hp as [Hne Hp].
  split; [| by exists piece].
  intros He. rewrite He in Hne. done.
Qed.

End Extractor.

(** X9: the extractor only appends, and little.  Whatever the reply, the
    store after [extract_key_events] is the store before followed by at
    most two new records; each has a sentence of the reply for its note
    (a piece between full stops or newlines, trimmed and not empty), no
    tags, the given turn, and the priority that [_priority] gives the
    sentence; and the long-term file holds the new store. *)
Theorem extract_appends_at_most_two (dm_reply : string) (turn : Z)
    (m : MemoryManager) (fs : files) :
  ∃ notes,
    long_memory (extract_key_events dm_reply turn m fs).1
      = long_memory m ++ (extracted turn <$> notes) ∧
    (length notes ≤ 2)%nat ∧
    Forall (fun ln =>
              ln ≠ "" ∧
              ∃ piece, piece ∈ split_on is_sentence_end dm_reply EmptyString ∧
                       ln = Py.strip piece) notes ∧
    ltm_file (extract_key_events dm_reply turn m fs).2
      = Some (long_memory (extract_key_events dm_reply turn m fs).1).
Proof.
  eexists. split; [apply extract_long_memory |]. split; [| split].
  - destruct (filter has_action (reply_lines dm_reply));
      rewrite length_take; lia.
  - apply Forall_forall. intros ln Hln. apply reply_lines_text.
    destruct (filter has_action (reply_lines dm_reply)) as [| h hits] eqn:E.
    + by eapply elem_of_sublist; [| apply sublist_take].
    + assert (ln ∈ filter has_action (reply_lines dm_reply)) as Hin.
      { rewrite E. by eapply elem_of_sublist; [| apply sublist_take]. }
      by apply list_elem_of_filter in Hin as [_ ?].
  - done.
Qed.

(** X10: which sentences the extractor files.  They are the first two
    sentences of the reply that hold an action word (the first alone when
    there is one only), in their order; when no sentence holds an action
    word, the first sentence of the reply; and none when the reply has no
    sentence at all. *)
Theorem extract_selects (dm_reply : string) (turn : Z) (m : MemoryManager)
    (fs : files) :
  long_memory (extract_key_events dm_reply turn m fs).1
  = long_memory m ++
    (extracted turn <$>
       match filter has_action (reply_lines dm_reply) with
       | [] => take 1 (reply_lines dm_reply)
       | hits => take 2 hits
       end).
Proof. apply extract_long_memory. Qed.

(** ** Floors of the priority score *)

Lemma any_in_true (words : list string) (w t : string) :
  w ∈ words → Py.contains w t = true → any_in words t = true.
Proof.
  intros Hw Hc. unfold any_in. apply existsb_exists.
  exists w. split; [by apply list_elem_of_In | done].
Qed.

(** X11: a keyword lifts the score.  A text whose lowercase form holds a
    keyword of any topical category scores at least 3 (and at most 5),
    whatever else it holds. *)
Theorem priority_keyword_floor (text tag : string) (words : list string)
    (w : string) :
  (tag, words) ∈ KEY_TAGS →
  w ∈ words →
  Py.contains w (Py.lower text) = true →
  3 ≤ _priority text ≤ 5.
Proof.
  intros Htag Hw Hc.
  assert (any_in words (Py.lower text) = true) as Hany
    by (by eapply any_in_true).
  unfold _priority. unfold KEY_TAGS in *. cbn [fold_left snd].
  repeat (apply elem_of_cons in Htag as [Htag | Htag];
          [injection Htag as -> -> |]);
    [.. | by apply elem_of_nil in Htag];
    rewrite Hany;
    repeat match goal with
           | |- context [if ?b then _ else _] => destruct b
           end; lia.
Qed.

Lemma priority_keyword_floor_witness :
  ("item", item_words) ∈ KEY_TAGS ∧ "key" ∈ item_words ∧
  Py.contains "key" (Py.lower "You find a golden KEY") = true ∧
  3 ≤ _priority "You find a golden KEY" ≤ 5.
Proof.
  assert (("item", item_words) ∈ KEY_TAGS) as H1
    by (apply elem_of_cons; right; apply elem_of_cons; by left).
  assert ("key" ∈ item_words) as H2
    by (apply elem_of_cons; right; apply elem_of_cons; by left).
  split; [exact H1 |]. split; [exact H2 |]. split; [reflexivity |].
  apply (priority_keyword_floor _ "item" item_words "key" H1 H2).
  reflexivity.
Defined.

(** ** What a reachable manager keeps true *)

Section Reachable.

Implicit Types (r : record) (m : MemoryManager) (fs : files).

Lemma record_ok_make_record (note : string) (tags : value) (p t : Z) :
  record_ok (make_record note tags p t).
Proof.
  unfold record_ok, note_ok, make_record.
  rewrite get_insert_eq.
  rewrite !get_insert_ne by done. rewrite get_insert_eq.
  rewrite !get_insert_ne by done. rewrite get_insert_eq. auto.
Qed.

Lemma Forall_record_ok_dec (recs : list record) :
  Forall record_ok recs ∨ ¬ Forall record_ok recs.
Proof.
  induction recs as [| r recs [IH | IH]].
  - left. constructor.
  - destruct (record_ok_dec r) as [Hr | Hr].
    + left. by constructor.
    + right. intros H. by apply Forall_cons_1 in H as [? _].
  - right. intros H. by apply Forall_cons_1 in H as [_ ?].
Qed.

(** The constructor's store and file: the normal form of what the file
    held, and a file that holds it (or no file and no record). *)
Lemma normalize_load_sync fs :
  load_ltm (_normalize_records (load_ltm fs) fs).2
    = (_normalize_records (load_ltm fs) fs).1 ∧
  hints_file (_normalize_records (load_ltm fs) fs).2 = hints_file fs ∧
  key_file (_normalize_records (load_ltm fs) fs).2 = key_file fs.
Proof.
  destruct (Forall_record_ok_dec (load_ltm fs)) as [Hok | Hno].
  - destruct (normalize_writes_iff_repaired_aux (load_ltm fs) fs) as [H _].
    by rewrite (H Hok).
  - destruct (normalize_writes_iff_repaired_aux (load_ltm fs) fs) as [_ H].
    by rewrite (H Hno).
Qed.

End Reachable.

Section ReachableInv.

Implicit Types (r : record) (m : MemoryManager) (fs : files).

Lemma seed_text_note_text r : seed_text r = note_text r.
Proof.
  unfold seed_text, note_text, get_or, get. by destruct (r !! "note").
Qed.

Lemma note_text_make_record (note : string) (tags : value) (p t : Z) :
  note_text (make_record note tags p t) = note.
Proof. unfold note_text, make_record. by rewrite get_insert_eq. Qed.

(** Seeding the index: the corpus receives the texts that are not empty,
    in the order of the records; nothing else of the manager moves. *)
Lemma seed_fold (l : list record) m :
  let m' := fold_left (fun m r => _rag_add_text (seed_text r) m) l m in
  corpus m' = corpus m ++ filter (fun s => s ≠ "") (note_text <$> l) ∧
  long_memory m' = long_memory m ∧ hints m' = hints m ∧
  turns m' = turns m ∧ use_semantic_rag m' = use_semantic_rag m ∧
  short_window m' = short_window m.
Proof.
  revert m. induction l as [| r l IH]; intros m; simpl.
  { by rewrite app_nil_r. }
  destruct (IH (_rag_add_text (seed_text r) m)) as (Hc & Hl & Hh & Ht & Hu & Hw).
  rewrite Hc, Hl, Hh, Ht, Hu, Hw. clear IH Hc Hl Hh Ht Hu Hw.
  rewrite filter_cons, seed_text_note_text. unfold _rag_add_text.
  destruct (note_text r) as [| a s]; simpl; rewrite <- ?app_assoc; done.
Qed.

Lemma init_fields (rag_ok : bool) (w : Z) (rag : bool) fs :
  let m := (init rag_ok w rag fs).1 in
  long_memory m = (_normalize_records (load_ltm fs) fs).1 ∧
  (init rag_ok w rag fs).2 = (_normalize_records (load_ltm fs) fs).2 ∧
  hints m = load_hints fs ∧ turns m = [] ∧
  use_semantic_rag m = rag && rag_ok ∧ short_window m = w ∧
  corpus m = if rag && rag_ok
             then filter (fun s => s ≠ "") (note_text <$> long_memory m)
             else [].
Proof.
  unfold init.
  destruct (_normalize_records (load_ltm fs) fs) as [lm fs'] eqn:E. simpl.
  destruct (rag && rag_ok) eqn:Er; simpl; [| done].
  unfold _init_rag_index.
  pose proof (seed_fold lm
    (set_corpus [] (mkMM w true [] lm (load_keys fs) (load_hints fs) [])))
    as (Hc & Hl & Hh & Ht & Hu & Hw).
  simpl in *. rewrite Hc, Hl, Hh, Ht, Hu, Hw. done.
Qed.

Lemma pin_note_fields (note : string) m fs :
  let m' := (pin_note note m fs).1 in
  hints m' = hints m ∧ turns m' = turns m ∧
  use_semantic_rag m' = use_semantic_rag m ∧
  hints_file (pin_note note m fs).2 = hints_file fs ∧
  corpus m' = if use_semantic_rag m && negb (Py.is_empty note)
              then corpus m ++ [note] else corpus m.
Proof.
  unfold pin_note. simpl.
  destruct (use_semantic_rag m) eqn:E; simpl; [| by rewrite E].
  unfold _rag_add_text. destruct (Py.is_empty note); simpl; by rewrite E.
Qed.

Lemma extract_step_fields (turn : Z) (chosen : list string) m :
  let m' := fold_left
       (fun m ln =>
          if use_semantic_rag m
          then _rag_add_text ln
                 (set_long_memory
                    (long_memory m ++
                     [make_record ln tags_none (_priority ln) turn]) m)
          else set_long_memory
                 (long_memory m ++
                  [make_record ln tags_none (_priority ln) turn]) m)
       chosen m in
  hints m' = hints m ∧ turns m' = turns m ∧
  use_semantic_rag m' = use_semantic_rag m ∧
  corpus m' = corpus m ++
              (if use_semantic_rag m then filter (fun s => s ≠ "") chosen
               else []).
Proof.
  revert m. induction chosen as [| ln chosen IH]; intros m; simpl.
  { split; [done |]. split; [done |]. split; [done |].
    destruct (use_semantic_rag m); by rewrite ?filter_nil, app_nil_r. }
  match goal with |- context [fold_left _ chosen ?m0] =>
    destruct (IH m0) as (Hh & Ht & Hu & Hc) end.
  rewrite Hh, Ht, Hu, Hc. clear IH Hh Ht Hu Hc.
  destruct (use_semantic_rag m) eqn:E; simpl.
  - unfold _rag_add_text. rewrite filter_cons.
    destruct ln as [| a s]; simpl; rewrite E, <- ?app_assoc; done.
  - rewrite E. by rewrite app_nil_r.
Qed.

Lemma extract_fields (dm_reply : string) (turn : Z) m fs :
  let m' := (extract_key_events dm_reply turn m fs).1 in
  long_memory m' = long_memory m ++ (extracted turn <$> filed_lines dm_reply) ∧
  ltm_file (extract_key_events dm_reply turn m fs).2 = Some (long_memory m') ∧
  hints_file (extract_key_events dm_reply turn m fs).2 = hints_file fs ∧
  hints m' = hints m ∧ turns m' = turns m ∧
  use_semantic_rag m' = use_semantic_rag m ∧
  corpus m' = corpus m ++
              (if use_semantic_rag m
               then filter (fun s => s ≠ "") (filed_lines dm_reply) else []).
Proof.
  cbv zeta. split; [apply extract_long_memory |].
  split; [done |]. split; [done |].
  unfold extract_key_events. cbv zeta. simpl fst.
  fold (reply_lines dm_reply). rewrite extract_chosen.
  fold (filed_lines dm_reply). apply extract_step_fields.
Qed.

End ReachableInv.

Section ReachableProof.

Implicit Types (r : record) (m : MemoryManager) (fs : files).

Lemma record_ok_note_ok r : record_ok r → note_ok r.
Proof. by intros (_ & _ & H). Qed.

Lemma manager_inv_init (rag_ok : bool) (w : Z) (rag : bool) fs :
  manager_inv (init rag_ok w rag fs).1 (init rag_ok w rag fs).2.
Proof.
  destruct (init_fields rag_ok w rag fs) as (Hl & Hf & Hh & _ & Hu & _ & Hc).
  destruct (normalize_load_sync fs) as (Hsync & Hhf & _).
  unfold manager_inv. rewrite Hf, Hl, Hh, Hu.
  split; [rewrite _normalize_records_fst; apply normalize_loop_ok |].
  split; [done |].
  split; [unfold load_hints; by rewrite Hhf |].
  rewrite Hc, Hl. split.
  - by intros ->.
  - intros -> r Hr Hne. apply list_elem_of_filter. split; [done |].
    apply list_elem_of_fmap. by exists r.
Qed.

Lemma manager_inv_pin (note : string) m fs :
  manager_inv m fs →
  manager_inv (pin_note note m fs).1 (pin_note note m fs).2.
Proof.
  intros (Hok & Hl & Hh & Hc0 & Hc1).
  destruct (pin_note_fields note m fs) as (Hh' & _ & Hu' & Hhf' & Hc').
  unfold manager_inv.
  rewrite pin_note_long_memory, Hh', Hu', Hc'.
  unfold load_ltm, load_hints. rewrite pin_note_file, Hhf'.
  split; [apply Forall_app; split; [done |];
          constructor; [apply record_ok_make_record | constructor] |].
  split; [done |]. split; [exact Hh |]. split.
  - intros Hu. rewrite Hu. simpl. auto.
  - intros Hu r Hr Hne. rewrite Hu. simpl.
    apply elem_of_app in Hr as [Hr | Hr].
    + specialize (Hc1 Hu r Hr Hne).
      destruct (Py.is_empty note); simpl; [done |].
      apply elem_of_app. by left.
    + apply list_elem_of_singleton in Hr as ->.
      rewrite note_text_make_record in *.
      rewrite is_empty_false by done. simpl.
      apply elem_of_app. right. by apply list_elem_of_singleton.
Qed.

Lemma manager_inv_extract (dm_reply : string) (turn : Z) m fs :
  manager_inv m fs →
  manager_inv (extract_key_events dm_reply turn m fs).1
              (extract_key_events dm_reply turn m fs).2.
Proof.
  intros (Hok & Hl & Hh & Hc0 & Hc1).
  destruct (extract_fields dm_reply turn m fs)
    as (Hl' & Hf' & Hhf' & Hh' & _ & Hu' & Hc').
  unfold manager_inv. rewrite Hh', Hu', Hc'.
  unfold load_ltm, load_hints. rewrite Hf', Hhf', !Hl'.
  change (default [] (Some ?x)) with x.
  split.
  { apply Forall_app. split; [done |]. apply Forall_fmap, Forall_true.
    intros ln. apply record_ok_make_record. }
  split; [done |]. split; [exact Hh |]. split.
  - intros Hu. rewrite Hu. rewrite app_nil_r. auto.
  - intros Hu r Hr Hne. rewrite Hu.
    apply elem_of_app in Hr as [Hr | Hr].
    + apply elem_of_app. left. by apply Hc1.
    + apply list_elem_of_fmap in Hr as (ln & -> & Hln).
      unfold extracted in *. rewrite note_text_make_record in *.
      apply elem_of_app. right. by apply list_elem_of_filter.
Qed.

Lemma manager_inv_compact (max_notes : Z) m fs m' fs' :
  manager_inv m fs →
  compact_long_memory max_notes m fs = Ok (m', fs') →
  manager_inv m' fs'.
Proof.
  intros (Hok & Hl & Hh & Hc0 & Hc1) Hc.
  assert (Forall note_ok (long_memory m)) as Hnote
    by (eapply Forall_impl; [exact Hok | apply record_ok_note_ok]).
  destruct (compact_long_memory_spec max_notes m fs Hnote)
    as (kept & Hk & Hsub & _).
  rewrite Hk in Hc. injection Hc as <- <-.
  unfold manager_inv. simpl.
  split.
  { rewrite Forall_forall in Hok. apply Forall_forall. intros r Hr.
    apply Hok. by eapply elem_of_sublist. }
  split.
  { case_decide as He; [| done].
    rewrite He in Hsub. apply sublist_nil_r in Hsub. by rewrite Hl, He, Hsub. }
  split.
  { case_decide; [done |]. exact Hh. }
  split; [done |].
  intros Hu r Hr Hne. apply Hc1; [done | | done].
  by eapply elem_of_sublist.
Qed.

(** Every reachable manager satisfies the invariant. *)
Lemma reachable_inv m fs : reachable m fs → manager_inv m fs.
Proof.
  induction 1 as [rag_ok w rag fs | u d m fs _ IH | h m fs _ IH | m fs _ IH
                 | note m fs _ IH | reply turn m fs _ IH
                 | max_notes m fs m' fs' _ IH Hc].
  - apply manager_inv_init.
  - exact IH.
  - destruct IH as (Hok & Hl & Hh & Hc0 & Hc1).
    unfold add_consistency_hint.
    destruct (_ && _); [| by repeat split].
    by repeat split.
  - destruct (decide (hints m = [])) as [E | E].
    + by rewrite pop_hints_empty.
    + destruct IH as (Hok & Hl & Hh & Hc0 & Hc1).
      rewrite pop_hints_nonempty by done. simpl.
      by repeat split.
  - by apply manager_inv_pin.
  - by apply manager_inv_extract.
  - by eapply manager_inv_compact.
Qed.

End ReachableProof.

(** X12: the files mirror the memory.  For every manager the turn loop can
    reach, what [_load_json] reads from the long-term file is the
    long-term store, and what it reads from the hints file is the hint
    queue: every change of either is written through. *)
Theorem files_mirror_memory (m : MemoryManager) (fs : files) :
  reachable m fs →
  load_ltm fs = long_memory m ∧ load_hints fs = hints m.
Proof. intros H. by destruct (reachable_inv m fs H) as (_ & ? & ? & _). Qed.

(** After a pin and a hint on a fresh manager. *)
Lemma files_mirror_memory_witness :
  let st := add_consistency_hint "careful"
              (pin_note "The lantern is cursed" (fresh 4) no_files).1
              (pin_note "The lantern is cursed" (fresh 4) no_files).2 in
  reachable st.1 st.2 ∧
  load_ltm st.2 = long_memory st.1 ∧ load_hints st.2 = hints st.1.
Proof.
  assert (reachable
    (add_consistency_hint "careful"
       (pin_note "The lantern is cursed" (fresh 4) no_files).1
       (pin_note "The lantern is cursed" (fresh 4) no_files).2).1
    (add_consistency_hint "careful"
       (pin_note "The lantern is cursed" (fresh 4) no_files).1
       (pin_note "The lantern is cursed" (fresh 4) no_files).2).2) as Hr.
  { apply reach_add_hint.
    exact (reach_pin "The lantern is cursed" _ _
             (reach_init false 4 false no_files)). }
  split; [exact Hr |]. exact (files_mirror_memory _ _ Hr).
Defined.

(** X13: a restart recovers the memory.  Building a new manager over the
    files that a reachable manager left gives the same long-term store and
    the same hint queue, rewrites no file, and starts with no turn: the
    short-term history is the only thing lost. *)
Theorem restart_recovers_memory (rag_ok : bool) (w : Z) (rag : bool)
    (m : MemoryManager) (fs : files) :
  reachable m fs →
  long_memory (init rag_ok w rag fs).1 = long_memory m ∧
  hints (init rag_ok w rag fs).1 = hints m ∧
  turns (init rag_ok w rag fs).1 = [] ∧
  (init rag_ok w rag fs).2 = fs.
Proof.
  intros H. destruct (reachable_inv m fs H) as (Hok & Hl & Hh & _).
  destruct (init_fields rag_ok w rag fs) as (Hl' & Hf' & Hh' & Ht' & _).
  destruct (normalize_writes_iff_repaired_aux (load_ltm fs) fs) as [Hfix _].
  rewrite Hl in Hfix. specialize (Hfix Hok).
  rewrite Hl', Hf', Hh', Ht', Hl, Hfix. by rewrite Hh.
Qed.

Lemma restart_recovers_memory_witness :
  let st := pin_note "The lantern is cursed"
              (add_turn "look" "You see a door." (fresh 4)) no_files in
  reachable st.1 st.2 ∧
  long_memory (init false 4 false st.2).1 = long_memory st.1 ∧
  turns st.1 = [mkTurn "look" "You see a door."] ∧
  turns (init false 4 false st.2).1 = [].
Proof.
  assert (reachable
    (pin_note "The lantern is cursed"
       (add_turn "look" "You see a door." (fresh 4)) no_files).1
    (pin_note "The lantern is cursed"
       (add_turn "look" "You see a door." (fresh 4)) no_files).2) as Hr.
  { apply reach_pin.
    exact (reach_add_turn "look" "You see a door." _ _
             (reach_init false 4 false no_files)). }
  split; [exact Hr |].
  destruct (restart_recovers_memory false 4 false _ _ Hr) as (H1 & _ & H3 & _).
  split; [exact H1 |]. split; [reflexivity | exact H3].
Defined.

(** X14: the corpus of the semantic index covers the store.  For every
    reachable manager, in Lightweight mode the corpus is empty; in
    Semantic mode the text of every note of the store that is not empty is
    in the corpus (the converse fails: compaction drops records and leaves
    the corpus as it is). *)
Theorem corpus_covers_store (m : MemoryManager) (fs : files) :
  reachable m fs →
  (use_semantic_rag m = false → corpus m = []) ∧
  (use_semantic_rag m = true →
   ∀ r, r ∈ long_memory m → note_text r ≠ "" → note_text r ∈ corpus m).
Proof. intros H. by destruct (reachable_inv m fs H) as (_ & _ & _ & ? & ?). Qed.

(** A manager in Semantic mode after one pin. *)
Lemma corpus_covers_store_witness :
  let st := pin_note "The lantern is cursed"
              (init true 4 true no_files).1 (init true 4 true no_files).2 in
  reachable st.1 st.2 ∧ use_semantic_rag st.1 = true ∧
  ∀ r, r ∈ long_memory st.1 → note_text r ≠ "" → note_text r ∈ corpus st.1.
Proof.
  assert (reachable
    (pin_note "The lantern is cursed"
       (init true 4 true no_files).1 (init true 4 true no_files).2).1
    (pin_note "The lantern is cursed"
       (init true 4 true no_files).1 (init true 4 true no_files).2).2) as Hr
    by exact (reach_pin "The lantern is cursed" _ _
                (reach_init true 4 true no_files)).
  split; [exact Hr |]. split; [reflexivity |].
  destruct (corpus_covers_store _ _ Hr) as [_ H]. exact (H eq_refl).
Defined.

(** ** Further properties of Lightweight recall *)

Section SortStable.

Context {A : Type}.
Implicit Types (x : (Z * Z) * A) (l : list ((Z * Z) * A)) (c : Z * Z).

Lemma key_ge_refl (a : Z * Z) : key_ge a a = true.
Proof. apply key_ge_spec. lia. Qed.

(** The sort is stable: the elements of one key keep their order. *)
Lemma insert_desc_stable x l c :
  filter (fun p => p.1 = c) (insert_desc x l)
    = filter (fun p => p.1 = c) (x :: l).
Proof.
  induction l as [| y ys IH]; simpl; [done |].
  destruct (key_ge x.1 y.1) eqn:E; [done |].
  rewrite filter_cons, IH, !filter_cons.
  destruct (decide (y.1 = c)) as [Hy | Hy], (decide (x.1 = c)) as [Hx | Hx];
    try done.
  rewrite Hx, Hy, key_ge_refl in E. done.
Qed.

Lemma sort_desc_stable l c :
  filter (fun p => p.1 = c) (sort_desc l) = filter (fun p => p.1 = c) l.
Proof.
  induction l as [| x l IH]; simpl; [done |].
  rewrite insert_desc_stable, !filter_cons. by rewrite IH.
Qed.

End SortStable.

Section RecallMore.

Implicit Types (r : record) (l pool : list record) (m : MemoryManager)
  (cue : string) (focus : list string).

Lemma filter_snd_decorated {K} `{EqDecision K} (f : record → K)
    (d : list (K * record)) (c : K) :
  Forall (fun p => p.1 = f p.2) d →
  filter (fun r => f r = c) (snd <$> d)
    = snd <$> filter (fun p => p.1 = c) d.
Proof.
  induction 1 as [| p d Hp _ IH]; [done |].
  csimpl. rewrite !filter_cons, IH.
  destruct (decide (f p.2 = c)), (decide (p.1 = c)); try done; congruence.
Qed.

Lemma pool_of_ok m :
  Forall note_ok (long_memory m) →
  Forall (fun r => note_ok r ∧ ¬ blank r) (pool_of m) ∧
  recall_pool m = Ok (pool_of m) ∧
  (length (pool_of m) ≤ 200)%nat ∧
  pool_of m `sublist_of` long_memory m.
Proof.
  intros Hok.
  assert (Forall note_ok (Py.slice_from (-200) (long_memory m))) as Hok200.
  { rewrite (slice_from_neg _ 200) by lia. by apply Forall_drop. }
  split; [| split; [| split]].
  - apply Forall_forall. intros r Hr.
    apply list_elem_of_filter in Hr as [Hnb Hr].
    rewrite Forall_forall in Hok200. auto.
  - by apply filterM_has_note_text.
  - unfold pool_of. etrans; [apply length_filter |].
    rewrite (slice_from_neg _ 200) by lia. rewrite length_drop. lia.
  - unfold pool_of. etrans; [apply sublist_filter |].
    rewrite (slice_from_neg _ 200) by lia. apply sublist_drop.
Qed.

(** The ranking of the whole pool, before the slice [[:k]]. *)
Lemma recall_ranked_spec (k : Z) cue (npc_focus : option (list string)) m :
  Forall note_ok (long_memory m) →
  ∃ sorted,
    recall_ranked k cue npc_focus m = Ok (Py.slice_to k sorted) ∧
    sorted ≡ₚ pool_of m ∧
    (∀ c, filter (fun r => rank_key cue (default [] npc_focus) r = c) sorted
          = filter (fun r => rank_key cue (default [] npc_focus) r = c)
                   (pool_of m)) ∧
    StronglySorted
      (fun r1 r2 => key_ge (rank_key cue (default [] npc_focus) r1)
                           (rank_key cue (default [] npc_focus) r2) = true)
      sorted.
Proof.
  intros Hok. destruct (pool_of_ok m Hok) as (Hpok & Hpool & _ & _).
  set (focus := default [] npc_focus).
  set (d := (fun r => (rank_key cue focus r, r)) <$> pool_of m).
  exists (snd <$> sort_desc d).
  assert (snd <$> d = pool_of m) as Hd.
  { unfold d. rewrite <- list_fmap_compose. apply list_fmap_id. }
  assert (sorted_by_key_desc (score (Py.lower cue) (map Py.lower focus))
            (pool_of m) = Ok (snd <$> sort_desc d)) as Hsorted.
  { unfold sorted_by_key_desc. rewrite mapM_score.
    - simpl. rewrite zip_fmap_self. reflexivity.
    - eapply Forall_impl; [exact Hpok |]. by intros r [? _]. }
  split; [| split; [| split]]; cycle 3.
  { destruct (sorted_by_key_desc_spec cue focus (pool_of m))
      as (ranked & Hr & _ & Hs).
    - eapply Forall_impl; [exact Hpok |]. by intros r [? _].
    - rewrite Hsorted in Hr. by injection Hr as <-. }
  - unfold recall_ranked. rewrite Hpool. simpl. fold focus.
    unfold sorted_by_key_desc. rewrite mapM_score.
    + simpl. rewrite zip_fmap_self. reflexivity.
    + eapply Forall_impl; [exact Hpok |]. by intros r [? _].
  - by rewrite sort_desc_perm, Hd.
  - intros c.
    assert (∀ d', d' ≡ₚ d → Forall (fun p => p.1 = rank_key cue focus p.2) d')
      as Hdec.
    { intros d' ->. unfold d. apply Forall_fmap. by apply Forall_true. }
    rewrite (filter_snd_decorated (rank_key cue focus) (sort_desc d) c)
      by (apply Hdec, sort_desc_perm).
    rewrite sort_desc_stable.
    rewrite <- (filter_snd_decorated (rank_key cue focus) d c)
      by (by apply Hdec).
    by rewrite Hd.
Qed.

Lemma recall_relevant_light (hits : list string) (k : Z) cue
    (npc_focus : option (list string)) m ranked :
  use_semantic_rag m = false →
  recall_ranked k cue npc_focus m = Ok ranked →
  Forall (fun r => note_ok r ∧ ¬ blank r) ranked →
  recall_relevant hits k cue npc_focus m = Ok (render_notes ranked).
Proof.
  intros Hrag Hr Hok. unfold recall_relevant. rewrite Hrag, Hr. simpl.
  rewrite mapM_bullet by done. simpl. unfold render_notes.
  by destruct ranked.
Qed.

Lemma render_notes_empty ranked : render_notes ranked = "" ↔ ranked = [].
Proof. by destruct ranked. Qed.

Lemma slice_to_sublist {A} (k : Z) (l : list A) :
  Py.slice_to k l `sublist_of` l.
Proof. unfold Py.slice_to. apply sublist_take. Qed.

Lemma slice_to_neg {A} (k : Z) (l : list A) :
  k < 0 → Py.slice_to k l = take (length l - Z.to_nat (- k)) l.
Proof.
  intros Hk. unfold Py.slice_to.
  destruct (Z.ltb_spec k 0) as [_ | ?]; [| lia]. f_equal. lia.
Qed.

End RecallMore.

(** X15: Lightweight recall is bounded.  On a store whose notes are text
    and for [k] not negative, the ranking holds at most [k] records and at
    most 200, each a record of the store whose note is not blank; in
    Lightweight mode the answer lists exactly those. *)
Theorem recall_is_bounded (hits : list string) (k : Z) (cue : string)
    (npc_focus : option (list string)) (m : MemoryManager) :
  Forall note_ok (long_memory m) →
  0 ≤ k →
  ∃ ranked,
    recall_ranked k cue npc_focus m = Ok ranked ∧
    Z.of_nat (length ranked) ≤ Z.min k 200 ∧
    Forall (fun r => r ∈ long_memory m ∧ ¬ blank r) ranked ∧
    (use_semantic_rag m = false →
     recall_relevant hits k cue npc_focus m = Ok (render_notes ranked)).
Proof.
  intros Hok Hk.
  destruct (recall_ranked_spec k cue npc_focus m Hok)
    as (sorted & Hr & Hperm & _ & _).
  destruct (pool_of_ok m Hok) as (Hpok & _ & H200 & Hsub).
  exists (Py.slice_to k sorted). split; [done |].
  assert (Forall (fun r => note_ok r ∧ ¬ blank r ∧ r ∈ long_memory m)
                 (Py.slice_to k sorted)) as Hall.
  { apply Forall_forall. intros r Hin.
    assert (r ∈ pool_of m) as Hp.
    { rewrite <- Hperm. eapply elem_of_sublist; [done |]. apply slice_to_sublist. }
    rewrite Forall_forall in Hpok. destruct (Hpok r Hp).
    repeat split; try done. by eapply elem_of_sublist. }
  split; [| split].
  - rewrite slice_to_nonneg by done. rewrite length_take.
    apply Permutation_length in Hperm. lia.
  - eapply Forall_impl; [exact Hall |]. by intros r (_ & ? & ?).
  - intros Hrag. apply recall_relevant_light; [done | done |].
    eapply Forall_impl; [exact Hall |]. by intros r (? & ? & _).
Qed.

Lemma recall_is_bounded_witness :
  Forall note_ok (long_memory alice_bob_store) ∧ 0 ≤ 1 ∧
  ∃ ranked,
    recall_ranked 1 "bob" None alice_bob_store = Ok ranked ∧
    Z.of_nat (length ranked) ≤ Z.min 1 200.
Proof.
  assert (Forall note_ok (long_memory alice_bob_store)) as Hok
    by (repeat (constructor; [right; reflexivity |]); constructor).
  split; [exact Hok |]. split; [lia |].
  destruct (recall_is_bounded [] 1 "bob" None alice_bob_store Hok)
    as (ranked & Hr & Hlen & _); [lia |].
  exists ranked. split; [exact Hr | exact Hlen].
Defined.

(** X16: a negative [k] cuts from the bottom.  With [k] below zero the
    slice [ranked[:k]] keeps all of the ranked pool but its last [-k]
    records, the lowest-ranked ones, instead of none. *)
Theorem recall_negative_k (k : Z) (cue : string)
    (npc_focus : option (list string)) (m : MemoryManager) :
  Forall note_ok (long_memory m) →
  k < 0 →
  ∃ sorted,
    sorted ≡ₚ pool_of m ∧
    StronglySorted
      (fun r1 r2 => key_ge (rank_key cue (default [] npc_focus) r1)
                           (rank_key cue (default [] npc_focus) r2) = true)
      sorted ∧
    recall_ranked k cue npc_focus m
      = Ok (take (length sorted - Z.to_nat (- k)) sorted).
Proof.
  intros Hok Hk.
  destruct (recall_ranked_spec k cue npc_focus m Hok)
    as (sorted & Hr & Hperm & _ & Hs).
  exists sorted. split; [done |]. split; [done |].
  by rewrite Hr, slice_to_neg.
Qed.

Lemma recall_negative_k_witness :
  Forall note_ok (long_memory alice_bob_store) ∧ -1 < 0 ∧
  ∃ sorted,
    sorted ≡ₚ pool_of alice_bob_store ∧
    recall_ranked (-1) "" (Some ["Bob"]) alice_bob_store
      = Ok (take (length sorted - Z.to_nat (- -1)) sorted).
Proof.
  assert (Forall note_ok (long_memory alice_bob_store)) as Hok
    by (repeat (constructor; [right; reflexivity |]); constructor).
  split; [exact Hok |]. split; [lia |].
  destruct (recall_negative_k (-1) "" (Some ["Bob"]) alice_bob_store Hok)
    as (sorted & Hperm & _ & Hr); [lia |].
  exists sorted. split; [exact Hperm | exact Hr].
Defined.

(** X17: ties keep the order of the store.  Among the records of the pool
    with one and the same key (score and turn), the ranking keeps the
    order they have in the store: the sort is stable, also in reverse. *)
Theorem recall_ties_keep_store_order (k : Z) (cue : string)
    (npc_focus : option (list string)) (m : MemoryManager) :
  Forall note_ok (long_memory m) →
  ∃ sorted,
    recall_ranked k cue npc_focus m = Ok (Py.slice_to k sorted) ∧
    sorted ≡ₚ pool_of m ∧
    ∀ c, filter (fun r => rank_key cue (default [] npc_focus) r = c) sorted
         = filter (fun r => rank_key cue (default [] npc_focus) r = c)
                  (pool_of m).
Proof.
  intros Hok.
  destruct (recall_ranked_spec k cue npc_focus m Hok)
    as (sorted & Hr & Hperm & Hst & _).
  by exists sorted.
Qed.

Lemma recall_ties_keep_store_order_witness :
  Forall note_ok (long_memory three_note_store) ∧
  ∃ sorted,
    recall_ranked 3 "" None three_note_store = Ok (Py.slice_to 3 sorted) ∧
    sorted ≡ₚ pool_of three_note_store.
Proof.
  assert (Forall note_ok (long_memory three_note_store)) as Hok
    by (repeat (constructor; [right; reflexivity |]); constructor).
  split; [exact Hok |].
  destruct (recall_ties_keep_store_order 3 "" None three_note_store Hok)
    as (sorted & Hr & Hperm & _).
  exists sorted. split; [exact Hr | exact Hperm].
Defined.

(** X18: when Lightweight recall has nothing to say.  On a store whose
    notes are text and for [k] not negative, the answer is the empty
    string exactly when [k] is 0 or the pool is empty (no note of the last
    200 records is other than blank); otherwise it starts with the
    header. *)
Theorem recall_empty_answer (hits : list string) (k : Z) (cue : string)
    (npc_focus : option (list string)) (m : MemoryManager) :
  use_semantic_rag m = false →
  Forall note_ok (long_memory m) →
  0 ≤ k →
  (recall_relevant hits k cue npc_focus m = Ok "" ↔
   k = 0 ∨ pool_of m = []) ∧
  ∃ out, recall_relevant hits k cue npc_focus m = Ok out ∧
         (out = "" ∨ String.prefix "Relevant notes:" out = true).
Proof.
  intros Hrag Hok Hk.
  destruct (recall_ranked_spec k cue npc_focus m Hok)
    as (sorted & Hr & Hperm & _ & _).
  destruct (pool_of_ok m Hok) as (Hpok & _ & _ & _).
  assert (recall_relevant hits k cue npc_focus m
          = Ok (render_notes (take (Z.to_nat k) sorted))) as Hans.
  { apply recall_relevant_light; [done | by rewrite Hr, slice_to_nonneg |].
    apply Forall_take. by rewrite Hperm. }
  rewrite Hans. split.
  - split.
    + intros H. injection H as H. apply render_notes_empty in H.
      apply take_nil_inv in H as [H | H]; [left; lia | right].
      rewrite H in Hperm. symmetry in Hperm. by apply Permutation_nil_r in Hperm.
    + intros [-> | He].
      * done.
      * rewrite He in Hperm. apply Permutation_nil_r in Hperm as ->.
        by rewrite take_nil.
  - eexists. split; [done |].
    destruct (take (Z.to_nat k) sorted); [by left | by right].
Qed.

Lemma recall_empty_answer_witness :
  use_semantic_rag spaces_store = false ∧
  Forall note_ok (long_memory spaces_store) ∧ 0 ≤ 3 ∧
  pool_of spaces_store = [] ∧
  recall_relevant [] 3 "lantern" None spaces_store = Ok "".
Proof.
  assert (Forall note_ok (long_memory spaces_store)) as Hok
    by (repeat (constructor; [right; reflexivity |]); constructor).
  split; [reflexivity |]. split; [exact Hok |]. split; [lia |].
  split; [reflexivity |].
  destruct (recall_empty_answer [] 3 "lantern" None spaces_store)
    as [[_ H] _]; [reflexivity | exact Hok | lia |].
  apply H. right. reflexivity.
Defined.

(** ** The recap *)

Section Recap.

Implicit Types (m : MemoryManager) (fs : files).

Lemma recap_nonempty m :
  long_memory m ≠ [] →
  recap m = "Recent world notes:" +:+ newline +:+
            Py.join newline (recap_bullets m).
Proof.
  intros Hne. unfold recap, recap_bullets.
  rewrite (slice_from_neg _ 12) by lia. change (Z.to_nat 12) with 12%nat.
  destruct (drop (length (long_memory m) - 12) (long_memory m)) eqn:E;
    [| reflexivity].
  apply (f_equal length) in E. rewrite length_drop in E. simpl in E.
  destruct (long_memory m); [done |]. simpl in E. lia.
Qed.

Lemma recap_bullets_length m : (length (recap_bullets m) ≤ 12)%nat.
Proof.
  unfold recap_bullets. rewrite length_fmap.
  etrans; [apply length_filter |]. rewrite length_drop. lia.
Qed.

End Recap.

(** X19: what the recap shows.  On an empty store it is the sentence that
    there are no notes yet.  On any other store it is the header followed
    by at most 12 bullets, one for each of the last 12 records whose note
    is truthy, oldest first; when none of them has such a note the header
    stands alone. *)
Theorem recap_shows_last_twelve (m : MemoryManager) :
  (long_memory m = [] → recap m = "No long-term notes yet.") ∧
  (long_memory m ≠ [] →
   recap m = "Recent world notes:" +:+ newline +:+
             Py.join newline (recap_bullets m)) ∧
  (length (recap_bullets m) ≤ 12)%nat.
Proof.
  split; [| split].
  - intros H. unfold recap, Py.slice_from. by rewrite H.
  - apply recap_nonempty.
  - apply recap_bullets_length.
Qed.

(** X20: a pinned note shows in the recap.  After [pin_note] with a note
    that is not empty, the recap ends with the bullet of that note, after
    at most 11 bullets of earlier notes. *)
Theorem recap_after_pin (note : string) (m : MemoryManager) (fs : files) :
  note ≠ "" →
  ∃ earlier,
    recap (pin_note note m fs).1
      = "Recent world notes:" +:+ newline +:+
        Py.join newline (earlier ++ ["- " +:+ note]) ∧
    (length earlier ≤ 11)%nat.
Proof.
  intros Hne. rewrite recap_nonempty
    by (rewrite pin_note_long_memory; by destruct (long_memory m)).
  unfold recap_bullets. rewrite pin_note_long_memory, length_app. simpl.
  rewrite drop_app_le by lia. rewrite filter_app, fmap_app.
  rewrite filter_cons, decide_True, filter_nil.
  - eexists. split.
    + by do 3 f_equal.
    + rewrite length_fmap. etrans; [apply length_filter |].
      rewrite length_drop. lia.
  - unfold make_record. rewrite get_insert_eq. simpl.
    by rewrite is_empty_false.
Qed.

Lemma recap_after_pin_witness :
  "The lantern is cursed" ≠ "" ∧
  ∃ earlier,
    recap (pin_note "The lantern is cursed" (fresh 4) no_files).1
      = "Recent world notes:" +:+ newline +:+
        Py.join newline (earlier ++ ["- " +:+ "The lantern is cursed"]) ∧
    (length earlier ≤ 11)%nat.
Proof.
  split; [discriminate |].
  apply (recap_after_pin "The lantern is cursed" (fresh 4) no_files).
  discriminate.
Defined.

(** X21: drains empty the queue by twos.  After [n] drains the queue is
    what it was without its first [2 n] hints, so that every hint leaves
    the queue once, in the order of its arrival; once the queue is empty a
    drain returns the empty string and changes nothing. *)
Theorem drains_empty_the_queue (n : nat) (m : MemoryManager) (fs : files) :
  let st := hint_run (replicate n DrainHints) (m, fs) in
  hints st.1 = drop (2 * n) (hints m) ∧
  ((length (hints m) ≤ 2 * n)%nat →
   pop_consistency_hints st.1 st.2 = ("", st.1, st.2)).
Proof.
  cbv zeta.
  assert (∀ n m fs,
    hints (hint_run (replicate n DrainHints) (m, fs)).1
      = drop (2 * n) (hints m)) as Hrun.
  { clear. intros n. induction n as [| n IH]; intros m fs; [done |].
    change (replicate (S n) DrainHints)
      with (DrainHints :: replicate n DrainHints).
    unfold hint_run. cbn [fold_left hint_step fst snd].
    fold (hint_run (replicate n DrainHints)).
    pose proof (pop_hints_hints m fs) as Hp.
    destruct (pop_consistency_hints m fs) as [[out m'] fs']. simpl in Hp.
    rewrite IH, Hp, drop_drop. f_equal. lia. }
  split; [apply Hrun |].
  intros Hlen. apply pop_hints_empty. rewrite Hrun.
  apply drop_ge. lia.
Qed.

(** ** White-space tokens are not empty *)

Lemma split_from_tokens (s cur : string) :
  Forall (fun w => w ≠ "") (Py.split_from s cur).
Proof.
  revert cur. induction s as [| c s IH]; intros cur; simpl.
  - destruct cur; [constructor | by repeat constructor].
  - destruct (Py.isspace c); [| apply IH].
    destruct cur; simpl; [apply IH |].
    constructor; [done | apply IH].
Qed.

Lemma split_from_nonempty (s : string) :
  Forall (fun w => w ≠ "") (Py.split_from s EmptyString).
Proof. apply split_from_tokens. Qed.

(** ** The focus tokens of the turn loop *)

Section Focus.

Implicit Types (w tok : string) (toks caps : list string).



Lemma focus_loop_spec toks caps :
  NoDup caps →
  NoDup (focus_loop toks caps) ∧
  ∀ w, w ∈ focus_loop toks caps →
       w ∈ caps ∨ ∃ tok, tok ∈ toks ∧ capitalised tok ∧ w = Py.lower tok.
Proof.
  revert caps. induction toks as [| t toks IH]; intros caps Hnd.
  { simpl. split; [done | by left]. }
  cbn [focus_loop].
  destruct (negb (Py.is_empty t) && PyMore.first_isupper t && PyMore.isalpha t)
    eqn:Hc.
  - apply andb_prop in Hc as [Hc Ha]. apply andb_prop in Hc as [He Hu].
    assert (capitalised t) as Hcap.
    { split; [| done]. intros ->. done. }
    cbv zeta. destruct (bool_decide (Py.lower t ∈ caps)) eqn:Hin.
    + destruct (IH caps Hnd) as [H1 H2]. split; [done |].
      intros w Hw. destruct (H2 w Hw) as [? | (tok & ? & ? & ?)]; [by left |].
      right. exists tok. split; [by right | done].
    + apply bool_decide_eq_false in Hin.
      destruct (IH (caps ++ [Py.lower t])) as [H1 H2].
      { apply NoDup_app. split; [done |]. split; [| apply NoDup_singleton].
        intros x Hx Hx'. apply list_elem_of_singleton in Hx'. by subst. }
      split; [done |]. intros w Hw.
      destruct (H2 w Hw) as [Hcaps | (tok & ? & ? & ?)].
      * apply elem_of_app in Hcaps as [? | Ht]; [by left |].
        apply list_elem_of_singleton in Ht. right. exists t.
        split; [by left | done].
      * right. exists tok. split; [by right | done].
  - destruct (IH caps Hnd) as [H1 H2]. split; [done |].
    intros w Hw. destruct (H2 w Hw) as [? | (tok & ? & ? & ?)]; [by left |].
    right. exists tok. split; [by right | done].
Qed.

Lemma guess_npc_focus_spec (text : string) :
  (length (guess_npc_focus text) ≤ 2)%nat ∧
  NoDup (guess_npc_focus text) ∧
  Forall (fun w =>
            ∃ tok, tok ∈ map (Py.strip_with is_punct) (Py.split text) ∧
                   capitalised tok ∧ w = Py.lower tok)
         (guess_npc_focus text).
Proof.
  unfold guess_npc_focus. cbv zeta. rewrite slice_to_2.
  destruct (focus_loop_spec (map (Py.strip_with is_punct) (Py.split text)) [])
    as [Hnd Hall]; [constructor |].
  split; [rewrite length_take; lia |]. split.
  - eapply sublist_NoDup; [exact Hnd | apply sublist_take].
  - apply Forall_forall. intros w Hw.
    destruct (Hall w) as [Hnil | H]; [| by apply elem_of_nil in Hnil | done].
    eapply elem_of_sublist; [exact Hw | apply sublist_take].
Qed.

Lemma any_token_in_nonempty (ws : list string) (n : string) :
  Forall (fun w => w ≠ "") ws →
  any_token_in (map Py.lower ws) n
    = existsb (fun w => Py.contains (Py.lower w) n) ws.
Proof.
  induction 1 as [| w ws Hw _ IH]; [done |].
  simpl. rewrite IH, lower_is_empty. by rewrite is_empty_false.
Qed.

End Focus.


(** X23: on the focus tokens of the turn loop the guard against empty
    tokens never fires.  For every text, cue and record, the score that
    Lightweight recall computes with the focus [guess_npc_focus text] is
    the score in which every focus token counts. *)
Theorem focus_tokens_all_count (text cue : string) (r : record) :
  rank_score cue (guess_npc_focus text) r
    = claimed_score cue (guess_npc_focus text) r.
Proof.
  unfold rank_score, claimed_score.
  rewrite any_token_in_nonempty.
  - do 2 f_equal. unfold any_token_in.
    induction (Py.split (Py.lower cue)) as [| w ws IH] eqn:E; [done |].
    assert (Forall (fun w => w ≠ "") (w :: ws)) as Hne.
    { rewrite <- E. unfold Py.split. apply split_from_nonempty. }
    clear E IH. induction Hne as [| x xs Hx _ IH]; [done |].
    simpl. by rewrite IH, is_empty_false.
  - destruct (guess_npc_focus_spec text) as (_ & _ & Hall).
    eapply Forall_impl; [exact Hall |].
    intros w (tok & _ & (Hne & _) & ->) He.
    apply is_empty_true in He. rewrite lower_is_empty in He.
    by apply is_empty_true in He.
Qed.

(** ** Trimming the recalled bullets *)

Section Trim.

Implicit Types (s t b : string) (ls bullets : list string).

Lemma len_append s t : PyMore.len (s +:+ t) = PyMore.len s + PyMore.len t.
Proof.
  unfold PyMore.len. induction s as [| c s IH].
  - change ("" +:+ t) with t. simpl. lia.
  - change (String c s +:+ t) with (String c (s +:+ t)).
    cbn [String.length]. lia.
Qed.

Lemma len_nonneg s : 0 ≤ PyMore.len s.
Proof. unfold PyMore.len. lia. Qed.

Lemma len_join_cons s ls :
  PyMore.len (Py.join newline (s :: ls)) = PyMore.len s + lines_size ls.
Proof.
  unfold Py.join. revert s. induction ls as [| b ls IH]; intros s.
  - simpl. lia.
  - change (String.concat newline (s :: b :: ls))
      with (s +:+ newline +:+ String.concat newline (b :: ls)).
    rewrite !len_append, IH. cbn [lines_size].
    change (PyMore.len newline) with 1. lia.
Qed.

Lemma lines_size_app ls ls' :
  lines_size (ls ++ ls') = lines_size ls + lines_size ls'.
Proof. induction ls as [| b ls IH]; simpl; [done | rewrite IH; lia]. Qed.

Lemma lines_size_nonneg ls : 0 ≤ lines_size ls.
Proof.
  induction ls as [| b ls IH]; simpl; [done |].
  pose proof (len_nonneg b). lia.
Qed.

(** The loop keeps a prefix of the bullets: every kept bullet fits, and
    the first bullet that is not kept does not. *)
Lemma trim_loop_spec bullets (size max_chars : Z) :
  let kept := trim_loop bullets size max_chars in
  kept `prefix_of` bullets ∧
  (kept ≠ [] → size + lines_size kept ≤ max_chars) ∧
  (kept = bullets ∨
   ∃ b, (kept ++ [b]) `prefix_of` bullets ∧
        max_chars < size + lines_size (kept ++ [b])).
Proof.
  revert size. induction bullets as [| b bullets IH]; intros size; cbn zeta.
  { simpl. split; [done |]. split; [done | by left]. }
  cbn [trim_loop].
  destruct (Z.ltb_spec max_chars (size + PyMore.len b + 1)) as [Hlt | Hle].
  - split; [apply prefix_nil |]. split; [done |].
    right. exists b. split.
    + simpl. by apply prefix_cons, prefix_nil.
    + simpl. lia.
  - destruct (IH (size + PyMore.len b + 1)) as (Hp & Hfit & Hmax).
    split; [by apply prefix_cons |]. split.
    + intros _. cbn [lines_size].
      destruct (trim_loop bullets (size + PyMore.len b + 1) max_chars)
        as [| b' kept] eqn:Hk.
      * simpl. lia.
      * specialize (Hfit ltac:(done)). lia.
    + destruct Hmax as [-> | (b' & Hp' & Hbig)]; [by left |].
      right. exists b'. split.
      * change ((b :: ?k) ++ [b']) with (b :: (k ++ [b'])).
        by apply prefix_cons.
      * change ((b :: ?k) ++ [b']) with (b :: (k ++ [b'])).
        cbn [lines_size]. lia.
Qed.

Lemma trim_bullets_unfold (long_ctx : string) (max_chars : Z) :
  long_ctx ≠ "" → max_chars < PyMore.len long_ctx →
  trim_bullets long_ctx max_chars =
    Py.join newline
      (header_line long_ctx ::
       trim_loop (bullet_lines (PyMore.splitlines long_ctx))
                 (PyMore.len (header_line long_ctx)) max_chars).
Proof.
  intros Hne Hbig. unfold trim_bullets.
  rewrite is_empty_false by done.
  destruct (Z.leb_spec (PyMore.len long_ctx) max_chars); [lia |]. done.
Qed.

End Trim.

(** The trimmed context fits when its header does. *)
Lemma trim_bullets_len (long_ctx : string) (max_chars : Z) :
  PyMore.len (header_line long_ctx) ≤ max_chars →
  PyMore.len (trim_bullets long_ctx max_chars) ≤ max_chars.
Proof.
  intros Hh.
  destruct (decide (long_ctx = "")) as [-> | Hne].
  { exact Hh. }
  destruct (Z.le_gt_cases (PyMore.len long_ctx) max_chars) as [Hle | Hgt].
  { unfold trim_bullets. rewrite is_empty_false by done.
    destruct (Z.leb_spec (PyMore.len long_ctx) max_chars); [done | lia]. }
  rewrite trim_bullets_unfold by done. rewrite len_join_cons.
  destruct (trim_loop_spec (bullet_lines (PyMore.splitlines long_ctx))
              (PyMore.len (header_line long_ctx)) max_chars)
    as (_ & Hfit & _).
  destruct (trim_loop _ _ _) as [| b kept]; [simpl; lia |].
  by apply Hfit.
Qed.

(** The first line of what recall answers. *)
Lemma header_line_relevant (rest : string) :
  header_line ("Relevant notes:" +:+ newline +:+ rest) = "Relevant notes:".
Proof. by vm_compute. Qed.

(** X24: [trim_bullets] keeps the context within the limit whenever the
    header can be kept within it.  For every context and every limit, if
    the first line of the context (the empty string for a context without
    a line) is at most [max_chars] characters long, the trimmed context is
    at most [max_chars] characters long; a longer header is kept whole
    (see X25), so that the limit is then exceeded. *)
Theorem trim_bullets_fits (long_ctx : string) (max_chars : Z) :
  PyMore.len (header_line long_ctx) ≤ max_chars →
  PyMore.len (trim_bullets long_ctx max_chars) ≤ max_chars.
Proof. apply trim_bullets_len. Qed.

(** A header of six characters and bullets of three, four and five: under
    a limit of 16 the result has 15 characters. *)
Lemma trim_bullets_fits_witness :
  PyMore.len (header_line three_bullets) ≤ 16 ∧
  PyMore.len three_bullets = 34 ∧
  PyMore.len (trim_bullets three_bullets 16) ≤ 16.
Proof.
  split; [by vm_compute |]. split; [reflexivity |].
  apply (trim_bullets_fits three_bullets 16). by vm_compute.
Defined.

(** X25: what [trim_bullets] returns for a context that is too long.  For
    a context that is not empty and longer than [max_chars], the result is
    the header line followed, one per line, by the longest run of leading
    bullet lines that fits: the kept lines are a prefix of the bullet
    lines (the lines after the first whose trimmed text starts with a
    dash), and either all of them are kept or the result with the next
    bullet would be longer than [max_chars].  The header is kept whatever
    its length. *)
Theorem trim_bullets_longest_prefix (long_ctx : string) (max_chars : Z) :
  long_ctx ≠ "" → max_chars < PyMore.len long_ctx →
  ∃ kept,
    trim_bullets long_ctx max_chars
      = Py.join newline (header_line long_ctx :: kept) ∧
    kept `prefix_of` bullet_lines (PyMore.splitlines long_ctx) ∧
    (kept = bullet_lines (PyMore.splitlines long_ctx) ∨
     ∃ b, (kept ++ [b]) `prefix_of` bullet_lines (PyMore.splitlines long_ctx) ∧
          max_chars <
            PyMore.len (Py.join newline (header_line long_ctx :: kept ++ [b]))).
Proof.
  intros Hne Hbig.
  destruct (trim_loop_spec (bullet_lines (PyMore.splitlines long_ctx))
              (PyMore.len (header_line long_ctx)) max_chars)
    as (Hp & _ & Hmax).
  eexists. split; [by apply trim_bullets_unfold |]. split; [exact Hp |].
  destruct Hmax as [Hall | (b & Hp' & Hb)]; [by left |].
  right. exists b. split; [exact Hp' |]. by rewrite len_join_cons.
Qed.

(** Under a limit of 16 the header and the first two bullets are kept; the
    line that is no bullet is dropped. *)
Lemma trim_bullets_longest_prefix_witness :
  three_bullets ≠ "" ∧ 16 < PyMore.len three_bullets ∧
  trim_bullets three_bullets 16 = Py.join newline ["Notes:"; "- a"; "- bb"] ∧
  ∃ kept,
    trim_bullets three_bullets 16
      = Py.join newline (header_line three_bullets :: kept) ∧
    kept `prefix_of` bullet_lines (PyMore.splitlines three_bullets) ∧
    (kept = bullet_lines (PyMore.splitlines three_bullets) ∨
     ∃ b, (kept ++ [b])
            `prefix_of` bullet_lines (PyMore.splitlines three_bullets) ∧
          16 < PyMore.len
                 (Py.join newline (header_line three_bullets :: kept ++ [b]))).
Proof.
  split; [done |]. split; [by vm_compute |]. split; [reflexivity |].
  apply (trim_bullets_longest_prefix three_bullets 16); [done | by vm_compute].
Defined.

(** ** The [remember:] command pins trimmed notes *)

Section Strip.

Variable sp : ascii → bool.

Lemma rstrip_with_fixed (s : string) :
  Py.rstrip_with sp (Py.rstrip_with sp s) = Py.rstrip_with sp s.
Proof.
  induction s as [| c s IH]; [done |].
  cbn [Py.rstrip_with]. cbv zeta.
  destruct (sp c && Py.is_empty (Py.rstrip_with sp s)) eqn:Hc; [done |].
  cbn [Py.rstrip_with]. cbv zeta. by rewrite IH, Hc.
Qed.

Lemma rstrip_with_lstrip (s : string) :
  Py.rstrip_with sp s = s →
  Py.rstrip_with sp (Py.lstrip_with sp s) = Py.lstrip_with sp s.
Proof.
  induction s as [| c s IH]; [done |].
  intros Hs. cbn [Py.lstrip_with].
  destruct (sp c) eqn:Hc; [| exact Hs].
  apply IH. revert Hs. cbn [Py.rstrip_with]. cbv zeta.
  destruct (sp c && Py.is_empty (Py.rstrip_with sp s)); [done |].
  by intros [= ->].
Qed.

Lemma lstrip_with_fixed (s : string) :
  Py.lstrip_with sp (Py.lstrip_with sp s) = Py.lstrip_with sp s.
Proof.
  induction s as [| c s IH]; [done |].
  cbn [Py.lstrip_with]. destruct (sp c) eqn:Hc; [done |].
  cbn [Py.lstrip_with]. by rewrite Hc.
Qed.

Lemma strip_with_fixed (s : string) :
  Py.strip_with sp (Py.strip_with sp s) = Py.strip_with sp s.
Proof.
  unfold Py.strip_with.
  rewrite rstrip_with_lstrip by apply rstrip_with_fixed.
  apply lstrip_with_fixed.
Qed.

End Strip.

(** X26: the notes that the [remember:] command pins.  Whenever the
    command reports success, the store has grown by exactly one record,
    with tag HIGH, priority 5 and turn -1, whose note is not empty and has
    no white space at either end (trimming it again changes nothing), so
    that the record is not blank for compaction and recall; the message
    shown is [Pinned: ] followed by that note, and the long-term file
    holds the new store. *)
Theorem remember_pins_trimmed_note
    (text msg : string) (m m' : MemoryManager) (fs fs' : files) :
  remember_command text m fs = Some (Success msg, m', fs') →
  ∃ note,
    note ≠ "" ∧ Py.strip note = note ∧
    msg = "Pinned: " +:+ note ∧
    long_memory m' = long_memory m ++ [make_record note tags_high 5 (-1)] ∧
    ¬ blank (make_record note tags_high 5 (-1)) ∧
    ltm_file fs' = Some (long_memory m').
Proof.
  unfold remember_command.
  destruct (String.prefix "remember:" (Py.lower text)); [| done].
  destruct (Py.after_colon text) as [rest |]; [| done]. simpl.
  destruct (Py.is_empty (Py.strip rest)) eqn:He; simpl; [done |].
  intros [= <- <- <-].
  assert (Py.strip rest ≠ "") as Hne.
  { intros Hn. apply is_empty_true in Hn. congruence. }
  assert (Py.strip (Py.strip rest) = Py.strip rest) as Hfix
    by apply strip_with_fixed.
  exists (Py.strip rest). split; [done |]. split; [done |].
  split; [done |].
  split; [apply (pin_note_long_memory (Py.strip rest) m fs) |]. split.
  - unfold blank. rewrite note_text_make_record. by rewrite Hfix.
  - etrans; [apply (pin_note_file (Py.strip rest) m fs) |].
    symmetry. f_equal. apply (pin_note_long_memory (Py.strip rest) m fs).
Qed.

(** The command with spaces around the note, on a fresh manager. *)
Lemma remember_pins_trimmed_note_witness :
  ∃ note,
    note ≠ "" ∧ Py.strip note = note ∧
    "Pinned: The lantern is cursed" = "Pinned: " +:+ note ∧
    long_memory one_note_store
      = long_memory (fresh 4) ++ [make_record note tags_high 5 (-1)] ∧
    ¬ blank (make_record note tags_high 5 (-1)) ∧
    ltm_file (pin_note "The lantern is cursed" (fresh 4) no_files).2
      = Some (long_memory one_note_store).
Proof.
  apply (remember_pins_trimmed_note "REMEMBER:  The lantern is cursed "
           "Pinned: The lantern is cursed" (fresh 4) _ no_files _).
  reflexivity.
Defined.

(** ** Recall and trimming in the turn loop *)

(** X27: the long-term context of a prompt is within the limit.  Whatever
    the mode, the store, the cue and [k], when [recall_relevant] returns
    an answer and the limit is at least 15 (the length of its header; the
    turn loop passes 1200), [trim_bullets] of that answer is at most
    [max_chars] characters long. *)
Theorem recalled_context_fits (hits : list string) (k : Z) (cue : string)
    (npc_focus : option (list string)) (m : MemoryManager)
    (out : string) (max_chars : Z) :
  recall_relevant hits k cue npc_focus m = Ok out →
  15 ≤ max_chars →
  PyMore.len (trim_bullets out max_chars) ≤ max_chars.
Proof.
  intros Hr Hmax. apply trim_bullets_len.
  revert Hr. unfold recall_relevant.
  destruct (if use_semantic_rag m then _ else _) as [bullets | e];
    simpl; [| done].
  destruct bullets as [| b bullets]; intros [= <-].
  - change (header_line "") with "". unfold PyMore.len. simpl. lia.
  - rewrite header_line_relevant. change (PyMore.len "Relevant notes:") with 15.
    done.
Qed.

(** Recall over the store of one pinned note, trimmed to 20 characters:
    the bullet of 23 characters does not fit and the header is left. *)
Lemma recalled_context_fits_witness :
  recall_relevant [] 3 "lantern" None one_note_store
    = Ok ("Relevant notes:" +:+ newline +:+ "- The lantern is cursed") ∧
  trim_bullets ("Relevant notes:" +:+ newline +:+ "- The lantern is cursed") 20
    = "Relevant notes:" ∧
  PyMore.len
    (trim_bullets ("Relevant notes:" +:+ newline +:+ "- The lantern is cursed")
                  20) ≤ 20.
Proof.
  assert (recall_relevant [] 3 "lantern" None one_note_store
          = Ok ("Relevant notes:" +:+ newline +:+ "- The lantern is cursed"))
    as Hr by (by vm_compute).
  split; [exact Hr |]. split; [by vm_compute |].
  apply (recalled_context_fits [] 3 "lantern" None one_note_store _ 20 Hr).
  lia.
Defined.
